(** * Contract intelligence: version lineage and temporal materialization

    A shallow embedding of the core of the contract hierarchy system:
    content addressing ([ingestion/hashing.py]), family matching and document
    versioning ([ingestion/family.py]), the supersession fold that
    materializes the current state of a section
    ([materialization/current_state.py]) and the time-travel queries
    ([query/engine.py]).

    Modelling conventions.
    - A [datetime] is an integer (any monotone encoding of the instant);
      a nullable column is an [option].
    - A Python [str] is a [string]; the models of [strip], [lower] and
      [upper] act on the ASCII range.
    - The SQLAlchemy session is a record of tables.  A table that the code
      scans is a list in row order, the order in which the rows were
      inserted; the materialized table, only ever read and written by
      primary key, is a finite map.
    - [ORDER BY] is a stable sort of the row order, so rows that tie on
      every sort key keep their row order.
    - [SELECT DISTINCT] of the section-id column is answered from the index
      on [(family_id, canonical_section_id)] and returns the values in
      ascending order; [Column.contains] is the SQL [LIKE] of SQLite.
    - The wall clock ([_utcnow]) is an explicit argument [now].
    - Columns that none of the embedded functions reads (layout, bounding
      boxes, embeddings, section titles) are left out, and so are
      [confidence] and [extracted_facts_json], which the queries only copy
      into their output. *)

From Stdlib Require Import ZArith String Ascii Sorting.Sorted Permutation.
From Stdlib Require Import DecimalString DecimalZ.
From stdpp Require Import gmap strings list sorting.

Local Open Scope string_scope.
Local Open Scope Z_scope.

(** ** Python string operations *)

Module Py.

(** [str.isspace] on one character, ASCII range: TAB..CR, FS..US, space. *)
Definition isspace (c : ascii) : bool :=
  let n := nat_of_ascii c in
  ((9 <=? n)%nat && (n <=? 13)%nat) || ((28 <=? n)%nat && (n <=? 32)%nat).

Definition lower_char (c : ascii) : ascii :=
  let n := nat_of_ascii c in
  if ((65 <=? n)%nat && (n <=? 90)%nat) then ascii_of_nat (n + 32) else c.

Definition upper_char (c : ascii) : ascii :=
  let n := nat_of_ascii c in
  if ((97 <=? n)%nat && (n <=? 122)%nat) then ascii_of_nat (n - 32) else c.

Fixpoint map_chars (f : ascii → ascii) (s : string) : string :=
  match s with
  | EmptyString => EmptyString
  | String c s' => String (f c) (map_chars f s')
  end.

(** [s.lower()] and [s.upper()]. *)
Definition lower : string → string := map_chars lower_char.
Definition upper : string → string := map_chars upper_char.

(** [s.replace(a, b)] for single characters [a] and [b]. *)
Definition replace_char (a b : ascii) : string → string :=
  map_chars (λ c, if Ascii.eqb c a then b else c).

Fixpoint lstrip (s : string) : string :=
  match s with
  | EmptyString => EmptyString
  | String c s' => if isspace c then lstrip s' else s
  end.

Fixpoint rstrip (s : string) : string :=
  match s with
  | EmptyString => EmptyString
  | String c s' =>
      match rstrip s' with
      | EmptyString => if isspace c then EmptyString else String c EmptyString
      | r => String c r
      end
  end.

(** [s.strip()]. *)
Definition strip (s : string) : string := rstrip (lstrip s).

(** [sep.join(parts)]. *)
Fixpoint join (sep : string) (parts : list string) : string :=
  match parts with
  | [] => ""
  | [p] => p
  | p :: rest => p ++ sep ++ join sep rest
  end.

(** [sorted([a, b])]: a stable sort of two strings by code point. *)
Definition sorted2 (a b : string) : list string :=
  if String.ltb b a then [b; a] else [a; b].

(** [x or d] for an optional string: [None] and the empty string are
    falsy. *)
Definition or_else (x : option string) (d : string) : string :=
  match x with
  | Some s => if bool_decide (s = "") then d else s
  | None => d
  end.

(** Truthiness of an optional string argument. *)
Definition truthy (x : option string) : bool :=
  match x with
  | Some s => negb (bool_decide (s = ""))
  | None => false
  end.

End Py.

(** ** Data model ([db/models.py]) *)

Module Family.
Record t := mk {
  family_id : string;
  family_keys_hash : string;
  partyA_norm : string;
  partyB_norm : string;
  created_at : Z;
}.
End Family.

Module ContractDocument.
Record t := mk {
  doc_id : string;
  file_hash : string;
  family_id : option string;
  doc_type : option string;
  doc_version_ingest : option Z;
  doc_version_timeline : option Z;
  effective_ts : option Z;
  created_at : Z;
}.
End ContractDocument.

Module ClauseNode.
Record t := mk {
  node_id : string;
  doc_id : string;
  family_id : string;
  canonical_section_id : string;
  referenced_section_id : option string;
  change_action : option string;
  modifies_section_id : option string;
  effective_ts : option Z;
  clause_text : string;
  created_at : Z;
}.
End ClauseNode.

Module FamilySectionCurrent.
Record t := mk {
  family_id : string;
  canonical_section_id : string;
  current_node_id : option string;
  current_effective_ts : option Z;
  composed_text : option string;
  updated_at : option Z;
}.
End FamilySectionCurrent.

(** The session: the four tables. *)
Record Session := mkSession {
  families : list Family.t;
  documents : list ContractDocument.t;
  clause_nodes : list ClauseNode.t;
  family_section_current : gmap (string * string) FamilySectionCurrent.t;
}.

(** ** Ordering ([ORDER BY]) *)

Section order_by.
Context {A : Type} (leb : A → A → bool).

Fixpoint insert_by (x : A) (l : list A) : list A :=
  match l with
  | [] => [x]
  | y :: l' => if leb x y then x :: l else y :: insert_by x l'
  end.

(** A stable insertion sort. *)
Fixpoint order_by (l : list A) : list A :=
  match l with
  | [] => []
  | x :: l' => insert_by x (order_by l')
  end.
End order_by.

(** [effective_ts ASC NULLS LAST]. *)
Definition ts_leb (a b : option Z) : bool :=
  match a, b with
  | Some x, Some y => (x <=? y)%Z
  | Some _, None => true
  | None, Some _ => false
  | None, None => true
  end.

Definition ts_eqb (a b : option Z) : bool := ts_leb a b && ts_leb b a.

(** [effective_ts ASC NULLS LAST, created_at ASC]. *)
Definition ts_created_leb (e1 : option Z) (c1 : Z) (e2 : option Z) (c2 : Z) : bool :=
  if ts_eqb e1 e2 then (c1 <=? c2)%Z else ts_leb e1 e2.

Definition node_leb (n m : ClauseNode.t) : bool :=
  ts_created_leb (ClauseNode.effective_ts n) (ClauseNode.created_at n)
                 (ClauseNode.effective_ts m) (ClauseNode.created_at m).

Definition node_ts_leb (n m : ClauseNode.t) : bool :=
  ts_leb (ClauseNode.effective_ts n) (ClauseNode.effective_ts m).

Definition doc_leb (d e : ContractDocument.t) : bool :=
  ts_created_leb (ContractDocument.effective_ts d) (ContractDocument.created_at d)
                 (ContractDocument.effective_ts e) (ContractDocument.created_at e).

(** ** Primary-key reads and writes ([session.get], attribute updates) *)

Definition get_family (session : Session) (family_id : string) : option Family.t :=
  List.find (λ f, bool_decide (Family.family_id f = family_id)) (families session).

Definition get_document (session : Session) (doc_id : string)
  : option ContractDocument.t :=
  List.find (λ d, bool_decide (ContractDocument.doc_id d = doc_id))
            (documents session).

(** Rewrite the row of the document table whose primary key is [doc_id]. *)
Definition update_document (doc_id : string)
    (f : ContractDocument.t → ContractDocument.t)
    (docs : list ContractDocument.t) : list ContractDocument.t :=
  (λ d, if bool_decide (ContractDocument.doc_id d = doc_id) then f d else d) <$> docs.

Definition set_documents (docs : list ContractDocument.t) (session : Session) : Session :=
  mkSession (families session) docs (clause_nodes session)
            (family_section_current session).

Definition set_families (fams : list Family.t) (session : Session) : Session :=
  mkSession fams (documents session) (clause_nodes session)
            (family_section_current session).

Definition set_family_section_current
    (cur : gmap (string * string) FamilySectionCurrent.t) (session : Session)
  : Session :=
  mkSession (families session) (documents session) (clause_nodes session) cur.

(** ** Content addressing ([ingestion/hashing.py]) and family matching
       ([ingestion/family.py])

    [hashlib.sha256(x.encode()).hexdigest()] is a parameter: nothing below
    depends on which digest function it is. *)

Section Hashing.
Context (sha256 : string → string).

Definition compute_doc_id (fhash : string) : string := sha256 fhash.

Definition compute_family_keys_hash (partyA_norm partyB_norm : string) : string :=
  let parts := Py.sorted2 (Py.lower (Py.strip partyA_norm))
                          (Py.lower (Py.strip partyB_norm)) in
  let raw := Py.join "|" parts in
  sha256 raw.

Definition compute_family_id (family_keys_hash : string) : string :=
  sha256 family_keys_hash.

(** [session.add(new_family); session.flush()]: the flush raises an
    integrity error, modelled as [None], when the primary key or the unique
    [family_keys_hash] is already taken. *)
Definition add_family (new_family : Family.t) (session : Session) : option Session :=
  if existsb (λ f, bool_decide (Family.family_id f = Family.family_id new_family)
                   || bool_decide (Family.family_keys_hash f
                                   = Family.family_keys_hash new_family))
             (families session)
  then None
  else Some (set_families (families session ++ [new_family]) session).

(** [match_or_create_family]: [None] is the exception raised by the flush;
    otherwise the returned family id and the session afterwards. *)
Definition match_or_create_family (now : Z) (partyA_norm partyB_norm : string)
    (session : Session) : option (string * Session) :=
  let keys_hash := compute_family_keys_hash partyA_norm partyB_norm in
  let family_id := compute_family_id keys_hash in
  let existing :=
    List.find (λ f, bool_decide (Family.family_keys_hash f = keys_hash))
              (families session) in
  match existing with
  | Some existing => Some (Family.family_id existing, session)
  | None =>
      let sorted_names := Py.sorted2 (Py.lower (Py.strip partyA_norm))
                                     (Py.lower (Py.strip partyB_norm)) in
      let new_family :=
        Family.mk family_id keys_hash
                  (nth 0 sorted_names "") (nth 1 sorted_names "") now in
      match add_family new_family session with
      | Some session' => Some (family_id, session')
      | None => None
      end
  end.
End Hashing.

(** [func.max] over a nullable column: nulls are skipped, the maximum of no
    value is null. *)
Definition sql_max (l : list (option Z)) : option Z :=
  foldl (λ acc x,
           match x, acc with
           | Some v, Some a => Some (Z.max a v)
           | Some v, None => Some v
           | None, _ => acc
           end) None l.

Definition in_family (family_id : string) (d : ContractDocument.t) : Prop :=
  ContractDocument.family_id d = Some family_id.

Global Instance in_family_dec family_id d : Decision (in_family family_id d).
Proof. unfold in_family. apply _. Defined.

Definition with_timeline (rank : Z) (d : ContractDocument.t) : ContractDocument.t :=
  ContractDocument.mk (ContractDocument.doc_id d) (ContractDocument.file_hash d)
    (ContractDocument.family_id d) (ContractDocument.doc_type d)
    (ContractDocument.doc_version_ingest d) (Some rank)
    (ContractDocument.effective_ts d) (ContractDocument.created_at d).

Definition with_assignment (family_id : string) (doc_version_ingest : Z)
    (effective_ts : option Z) (d : ContractDocument.t) : ContractDocument.t :=
  ContractDocument.mk (ContractDocument.doc_id d) (ContractDocument.file_hash d)
    (Some family_id) (ContractDocument.doc_type d)
    (Some doc_version_ingest) (ContractDocument.doc_version_timeline d)
    effective_ts (ContractDocument.created_at d).

(** The loop [for rank, fd in enumerate(family_docs, start=1)]: the state is
    the value of [doc_version_timeline] and the document table. *)
Fixpoint assign_ranks (doc_id : string) (rank : Z)
    (family_docs : list ContractDocument.t)
    (doc_version_timeline : Z) (docs : list ContractDocument.t)
  : Z * list ContractDocument.t :=
  match family_docs with
  | [] => (doc_version_timeline, docs)
  | fd :: rest =>
      let docs' := update_document (ContractDocument.doc_id fd) (with_timeline rank) docs in
      let doc_version_timeline' :=
        if bool_decide (ContractDocument.doc_id fd = doc_id) then rank
        else doc_version_timeline in
      assign_ranks doc_id (rank + 1) rest doc_version_timeline' docs'
  end.

(** The family's documents in timeline order, as queried by
    [assign_doc_versions]. *)
Definition family_docs_of (family_id : string) (docs : list ContractDocument.t)
  : list ContractDocument.t :=
  order_by doc_leb (filter (in_family family_id) docs).

(** The family's greatest ingestion version: [coalesce(max(..), 0) or 0]. *)
Definition max_ingest_of (family_id : string) (docs : list ContractDocument.t) : Z :=
  default 0 (sql_max (ContractDocument.doc_version_ingest
                        <$> filter (in_family family_id) docs)).

Definition assign_doc_versions (doc_id family_id : string)
    (effective_ts : option Z) (session : Session) : (Z * Z) * Session :=
  let max_ingest := max_ingest_of family_id (documents session) in
  let doc_version_ingest := max_ingest + 1 in
  let docs1 :=
    match get_document session doc_id with
    | Some _ =>
        update_document doc_id
          (with_assignment family_id doc_version_ingest effective_ts)
          (documents session)
    | None => documents session
    end in
  let family_docs := family_docs_of family_id docs1 in
  let '(doc_version_timeline, docs2) := assign_ranks doc_id 1 family_docs 0 docs1 in
  ((doc_version_ingest, doc_version_timeline), set_documents docs2 session).

(** ** Supersession engine ([materialization/current_state.py]) *)

Definition newline : ascii := "010"%char.

(** The separator ["\n\n"]. *)
Definition blank_line : string := String newline (String newline EmptyString).

Definition for_key (family_id canonical_section_id : string) (n : ClauseNode.t) : Prop :=
  ClauseNode.family_id n = family_id
  ∧ ClauseNode.canonical_section_id n = canonical_section_id.

Global Instance for_key_dec family_id canonical_section_id n :
  Decision (for_key family_id canonical_section_id n).
Proof. unfold for_key. apply _. Defined.

(** The loop that collects [restatement_doc_ids]. *)
Definition collect_restatements (session : Session) (nodes : list ClauseNode.t)
  : gset string :=
  foldl (λ acc node,
           match get_document session (ClauseNode.doc_id node) with
           | Some doc =>
               if bool_decide (ContractDocument.doc_type doc = Some "restatement")
               then acc ∪ {[ContractDocument.doc_id doc]}
               else acc
           | None => acc
           end) ∅ nodes.

(** The local variables of the supersession loop. *)
Record FoldState := mkFold {
  base_text : option string;
  base_node_id : option string;
  base_effective_ts : option Z;
  is_deleted : bool;
  append_chain : list string;
}.

Definition initial_state : FoldState := mkFold None None None false [].

(** [(node.change_action or "NO_CHANGE").upper()]. *)
Definition action_of (node : ClauseNode.t) : string :=
  Py.upper (Py.or_else (ClauseNode.change_action node) "NO_CHANGE").

(** One iteration of the loop of [materialize_section]. *)
Definition supersede (restatement_doc_ids : gset string) (st : FoldState)
    (node : ClauseNode.t) : FoldState :=
  let action := action_of node in
  let text := ClauseNode.clause_text node in
  let nid := ClauseNode.node_id node in
  let ets := ClauseNode.effective_ts node in
  if bool_decide (ClauseNode.doc_id node ∈ restatement_doc_ids) then
    mkFold (Some text) (Some nid) ets false []
  else if bool_decide (action = "REPLACE") then
    mkFold (Some text) (Some nid) ets false []
  else if bool_decide (action = "APPEND") then
    mkFold (base_text st) (Some nid) ets false (append_chain st ++ [text])%list
  else if bool_decide (action = "ADD_NEW") then
    match base_text st with
    | None => mkFold (Some text) (Some nid) ets false (append_chain st)
    | Some _ => mkFold (Some text) (Some nid) ets false []
    end
  else if bool_decide (action = "DELETE") then
    mkFold None None ets true []
  else if bool_decide (action = "NO_CHANGE") then
    match base_text st with
    | None => mkFold (Some text) (Some nid) ets false (append_chain st)
    | Some _ => st
    end
  else st.

(** [parts = [base_text] if base_text else []; parts.extend(append_chain);
    "\n\n".join(parts) if parts else None]. *)
Definition compose (st : FoldState) : option string :=
  let parts : list string :=
    (match base_text st with
     | Some t => if bool_decide (t = "") then [] else [t]
     | None => []
     end ++ append_chain st)%list in
  match parts with
  | [] => None
  | _ => Some (Py.join blank_line parts)
  end.

(** The nodes of a key in the order [materialize_section] reads them. *)
Definition section_nodes (family_id canonical_section_id : string)
    (session : Session) : list ClauseNode.t :=
  order_by node_leb
    (filter (for_key family_id canonical_section_id) (clause_nodes session)).

(** The state in which the loop of [materialize_section] ends on [nodes]. *)
Definition materialize_fold (session : Session) (nodes : list ClauseNode.t)
  : FoldState :=
  foldl (supersede (collect_restatements session nodes)) initial_state nodes.

(** What [materialize_section] computes before the upsert:
    [(composed_text, current_node_id)]. *)
Definition materialize_outcome (st : FoldState) : option string * option string :=
  if is_deleted st then (None, None) else (compose st, base_node_id st).

(** The upsert into [family_section_current] that ends
    [materialize_section]: the returned row, if any, and the table
    afterwards.  A key without a row gets none when both the composed text
    and the node pointer are null. *)
Definition upsert_current (now : Z) (family_id canonical_section_id : string)
    (st : FoldState) (cur : gmap (string * string) FamilySectionCurrent.t)
  : option FamilySectionCurrent.t * gmap (string * string) FamilySectionCurrent.t :=
  let key := (family_id, canonical_section_id) in
  let '(composed_text, current_node_id) := materialize_outcome st in
  let write (row : FamilySectionCurrent.t) :=
    let row' :=
      FamilySectionCurrent.mk
        (FamilySectionCurrent.family_id row)
        (FamilySectionCurrent.canonical_section_id row)
        current_node_id (base_effective_ts st) composed_text (Some now) in
    (Some row', <[key := row']> cur) in
  match cur !! key with
  | None =>
      match composed_text, current_node_id with
      | None, None => (None, cur)
      | _, _ =>
          write (FamilySectionCurrent.mk family_id canonical_section_id
                   None None None None)
      end
  | Some row => write row
  end.

(** [materialize_section]: the returned row, if any, and the session
    afterwards. *)
Definition materialize_section (now : Z) (family_id canonical_section_id : string)
    (session : Session) : option FamilySectionCurrent.t * Session :=
  let key := (family_id, canonical_section_id) in
  let nodes := section_nodes family_id canonical_section_id session in
  match nodes with
  | [] =>
      (None,
       set_family_section_current
         (delete key (family_section_current session)) session)
  | _ :: _ =>
      let st := materialize_fold session nodes in
      let '(row, cur) :=
        upsert_current now family_id canonical_section_id st
                       (family_section_current session) in
      (row, set_family_section_current cur session)
  end.

(** The loop shared by the two batch entry points: one call of
    [materialize_section] per listed section, counting the calls.  Each call
    reads the clock for itself: [clock i] is the reading available to the
    call number [i]. *)
Fixpoint materialize_loop (clock : nat → Z) (family_id : string)
    (section_ids : list string) (call : nat) (count : Z) (session : Session)
  : Z * Session :=
  match section_ids with
  | [] => (count, session)
  | sid :: rest =>
      let session' := (materialize_section (clock call) family_id sid session).2 in
      materialize_loop clock family_id rest (S call) (count + 1) session'
  end.

(** [materialize_affected_sections]: the per-key fold for each listed
    section, and the count. *)
Definition materialize_affected_sections (clock : nat → Z) (family_id : string)
    (affected_section_ids : list string) (session : Session) : Z * Session :=
  materialize_loop clock family_id affected_section_ids 0 0 session.

(** ** Time-travel query engine ([query/engine.py]) *)

(** The [error] strings, with the values interpolated into them. *)
Inductive QueryError :=
  | FamilyNotFound
      (** ["Family not found."] *)
  | NoCurrentState (resolved_section : string)
      (** ["No current state found for section '..'."] *)
  | NoDocumentVersion (doc_version : Z)
      (** ["No document found with version .. in this family."] *)
  | NoDataAsOf (resolved_section : string) (as_of_date : Z)
      (** ["No data for section '..' as of ..."] *).

(** One entry of the [changes] list of [query_changes]. *)
Record ChangeEntry := mkChange {
  ce_change_action : option string;
  ce_clause_text : string;
  ce_modifies_section_id : option string;
  ce_referenced_section_id : option string;
  ce_effective_ts : option Z;
}.

(** The [data] dictionaries, one constructor per shape. *)
Inductive QueryData :=
  | CurrentData (composed_text current_node_id : option string)
                (current_effective_ts updated_at : option Z)
  | ChangeData (doc_version : Z) (doc_type : option string)
               (changes : list ChangeEntry)
               (message : option (Z * string))
      (** [message] holds the values interpolated into
          ["Version .. does not modify section '..'."], when present *)
  | AsOfDeleted (as_of_date : Z)
      (** [status = "DELETED"], [composed_text = None] *)
  | AsOfActive (as_of_date : Z) (composed_text current_node_id : option string)
               (effective_ts : option Z)
      (** [status = "ACTIVE"] *).

Record QueryResult := mkResult {
  scenario : string;
  qr_family_id : string;
  qr_canonical_section_id : string;
  data : option QueryData;
  error : option QueryError;
}.

(** [SELECT DISTINCT canonical_section_id] over the nodes of a family.  The
    query names only columns of the index on
    [(family_id, canonical_section_id)], and SQLite answers it from that
    index: each value once, in ascending order of the column (byte order,
    the [BINARY] collation), whatever the order in which the rows were
    inserted. *)
Definition distinct (l : list string) : list string :=
  order_by String.leb (remove_dups l).

(** One character of a [LIKE] pattern against one character of the text:
    SQLite compares ASCII letters without regard to case. *)
Definition like_char (p c : ascii) : bool :=
  bool_decide (Py.lower_char p = Py.lower_char c).

(** [text LIKE pattern] as SQLite evaluates it, with no escape character:
    ["%"] stands for any run of characters, ["_"] for any one character. *)
Fixpoint sql_like (pattern : string) : string → bool :=
  match pattern with
  | EmptyString => λ text, bool_decide (text = "")
  | String p pattern' =>
      if bool_decide (p = "%"%char) then
        fix any_run (text : string) : bool :=
          sql_like pattern' text
          || match text with
             | EmptyString => false
             | String _ text' => any_run text'
             end
      else if bool_decide (p = "_"%char) then
        λ text, match text with
                | EmptyString => false
                | String _ text' => sql_like pattern' text'
                end
      else
        λ text, match text with
                | EmptyString => false
                | String c text' => like_char p c && sql_like pattern' text'
                end
  end.

(** [column.contains(q)]: SQLAlchemy renders [column LIKE '%' || q || '%'],
    so the characters ["%"] and ["_"] of [q] are wildcards. *)
Definition sql_contains (text q : string) : bool :=
  sql_like ("%" ++ q ++ "%") text.

Definition in_family_node (family_id : string) (n : ClauseNode.t) : Prop :=
  ClauseNode.family_id n = family_id.

Global Instance in_family_node_dec family_id n : Decision (in_family_node family_id n).
Proof. unfold in_family_node. apply _. Defined.

(** The section ids returned by the [contains] fallback of
    [_resolve_section_id]. *)
Definition fuzzy_candidates (session : Session) (family_id section_query : string)
  : list string :=
  distinct
    (ClauseNode.canonical_section_id
       <$> filter (λ n, in_family_node family_id n
                        ∧ sql_contains (ClauseNode.canonical_section_id n)
                                       section_query = true)
                  (clause_nodes session)).

Definition section_exists (session : Session) (family_id section_id : string) : bool :=
  bool_decide (filter (for_key family_id section_id) (clause_nodes session) ≠ []).

Definition _resolve_section_id (session : Session) (family_id section_query : string)
  : string :=
  if section_exists session family_id section_query then section_query
  else
    let semantic_id :=
      "semantic:" ++ Py.replace_char " "%char "_"%char (Py.lower section_query) in
    if section_exists session family_id semantic_id then semantic_id
    else
      match fuzzy_candidates session family_id section_query with
      | c :: _ => c
      | [] => section_query
      end.

(** One iteration of the supersession loop inlined in [query_as_of]. *)
Definition supersede_as_of (restatement_doc_ids : gset string) (st : FoldState)
    (node : ClauseNode.t) : FoldState :=
  let action := action_of node in
  let text := ClauseNode.clause_text node in
  let nid := ClauseNode.node_id node in
  let ets := ClauseNode.effective_ts node in
  if bool_decide (ClauseNode.doc_id node ∈ restatement_doc_ids) then
    mkFold (Some text) (Some nid) ets false []
  else if bool_decide (action = "REPLACE") then
    mkFold (Some text) (Some nid) ets false []
  else if bool_decide (action = "APPEND") then
    mkFold (base_text st) (Some nid) ets false (append_chain st ++ [text])%list
  else if bool_decide (action = "ADD_NEW") then
    mkFold (Some text) (Some nid) ets false []
  else if bool_decide (action = "DELETE") then
    mkFold None None ets true []
  else if bool_decide (action = "NO_CHANGE") then
    match base_text st with
    | None =>
        mkFold (Some text) (Some nid) ets (is_deleted st) (append_chain st)
    | Some _ => st
    end
  else st.

(** [ClauseNode.effective_ts <= as_of_date]: a null never passes. *)
Definition effective_by (as_of_date : Z) (n : ClauseNode.t) : Prop :=
  match ClauseNode.effective_ts n with
  | Some t => t ≤ as_of_date
  | None => False
  end.

Global Instance effective_by_dec as_of_date n : Decision (effective_by as_of_date n).
Proof. unfold effective_by. destruct (ClauseNode.effective_ts n); apply _. Defined.

(** The nodes of a key that [query_as_of] reads, in the order it reads
    them. *)
Definition as_of_nodes (family_id canonical_section_id : string) (as_of_date : Z)
    (session : Session) : list ClauseNode.t :=
  order_by node_ts_leb
    (filter (λ n, for_key family_id canonical_section_id n
                  ∧ effective_by as_of_date n)
            (clause_nodes session)).

(** The state in which the loop of [query_as_of] ends on [nodes]. *)
Definition as_of_fold (session : Session) (nodes : list ClauseNode.t) : FoldState :=
  foldl (supersede_as_of (collect_restatements session nodes)) initial_state nodes.

Section Queries.
Context (sha256 : string → string).

Definition _resolve_family (session : Session)
    (family_id party_a party_b : option string) : option Family.t :=
  if Py.truthy family_id then get_family session (default "" family_id)
  else if Py.truthy party_a && Py.truthy party_b then
    let keys_hash :=
      compute_family_keys_hash sha256 (default "" party_a) (default "" party_b) in
    List.find (λ f, bool_decide (Family.family_keys_hash f = keys_hash))
              (families session)
  else None.

Definition query_current (session : Session) (section : string)
    (family_id party_a party_b : option string) : QueryResult :=
  match _resolve_family session family_id party_a party_b with
  | None =>
      mkResult "CURRENT" (Py.or_else family_id "") section None (Some FamilyNotFound)
  | Some family =>
      let fid := Family.family_id family in
      let resolved_section := _resolve_section_id session fid section in
      match family_section_current session !! (fid, resolved_section) with
      | None =>
          mkResult "CURRENT" fid resolved_section None
                   (Some (NoCurrentState resolved_section))
      | Some current =>
          mkResult "CURRENT" fid resolved_section
            (Some (CurrentData
                     (FamilySectionCurrent.composed_text current)
                     (FamilySectionCurrent.current_node_id current)
                     (FamilySectionCurrent.current_effective_ts current)
                     (FamilySectionCurrent.updated_at current)))
            None
      end
  end.

Definition change_entry (node : ClauseNode.t) : ChangeEntry :=
  mkChange (ClauseNode.change_action node) (ClauseNode.clause_text node)
           (ClauseNode.modifies_section_id node)
           (ClauseNode.referenced_section_id node)
           (ClauseNode.effective_ts node).

(** The document with a given timeline version in a family. *)
Definition find_version (session : Session) (fid : string) (doc_version : Z)
  : option ContractDocument.t :=
  List.find (λ d, bool_decide (ContractDocument.family_id d = Some fid)
                  && bool_decide (ContractDocument.doc_version_timeline d
                                  = Some doc_version))
            (documents session).

(** The nodes of one document that touch a section. *)
Definition touching (doc_id resolved_section : string) (n : ClauseNode.t) : Prop :=
  ClauseNode.doc_id n = doc_id
  ∧ ClauseNode.canonical_section_id n = resolved_section.

Global Instance touching_dec doc_id resolved_section n :
  Decision (touching doc_id resolved_section n).
Proof. unfold touching. apply _. Defined.

Definition query_changes (session : Session) (section : string) (doc_version : Z)
    (family_id party_a party_b : option string) : QueryResult :=
  match _resolve_family session family_id party_a party_b with
  | None =>
      mkResult "CHANGE_TRACK" (Py.or_else family_id "") section None
               (Some FamilyNotFound)
  | Some family =>
      let fid := Family.family_id family in
      let resolved_section := _resolve_section_id session fid section in
      match find_version session fid doc_version with
      | None =>
          mkResult "CHANGE_TRACK" fid resolved_section None
                   (Some (NoDocumentVersion doc_version))
      | Some doc =>
          let nodes :=
            filter (touching (ContractDocument.doc_id doc) resolved_section)
                   (clause_nodes session) in
          match nodes with
          | [] =>
              mkResult "CHANGE_TRACK" fid resolved_section
                (Some (ChangeData doc_version (ContractDocument.doc_type doc) []
                                  (Some (doc_version, resolved_section))))
                None
          | _ :: _ =>
              mkResult "CHANGE_TRACK" fid resolved_section
                (Some (ChangeData doc_version (ContractDocument.doc_type doc)
                                  (change_entry <$> nodes) None))
                None
          end
      end
  end.

Definition query_as_of (session : Session) (section : string) (as_of_date : Z)
    (family_id party_a party_b : option string) : QueryResult :=
  match _resolve_family session family_id party_a party_b with
  | None =>
      mkResult "AS_OF" (Py.or_else family_id "") section None (Some FamilyNotFound)
  | Some family =>
      let fid := Family.family_id family in
      let resolved_section := _resolve_section_id session fid section in
      let nodes := as_of_nodes fid resolved_section as_of_date session in
      match nodes with
      | [] =>
          mkResult "AS_OF" fid resolved_section None
                   (Some (NoDataAsOf resolved_section as_of_date))
      | _ :: _ =>
          let st := as_of_fold session nodes in
          if is_deleted st then
            mkResult "AS_OF" fid resolved_section (Some (AsOfDeleted as_of_date)) None
          else
            mkResult "AS_OF" fid resolved_section
              (Some (AsOfActive as_of_date (compose st) (base_node_id st)
                                (base_effective_ts st)))
              None
      end
  end.
End Queries.

(** An injective stand-in for the digest, used only to evaluate the
    functions on concrete sessions; the general statements below hold for an
    arbitrary digest function. *)
Definition tagged_digest (s : string) : string := "sha256:" ++ s.

(** ** The supersession state machine as the specification words it

    A second fold, written from the transition rules of the specification
    rather than from the code, used to say which node "established the
    baseline".  Here [APPEND] leaves the baseline, and so the baseline
    node, unchanged. *)

Module SpecFold.

Record state := mk {
  base_text : option string;
  base_node : option string;
  append_chain : list string;
  deleted : bool;
}.

Definition init : state := mk None None [] false.

(** The node's owning document has [doc_type = restatement]. *)
Definition owned_by_restatement (session : Session) (node : ClauseNode.t) : bool :=
  match get_document session (ClauseNode.doc_id node) with
  | Some doc => bool_decide (ContractDocument.doc_type doc = Some "restatement")
  | None => false
  end.

Definition reset (node : ClauseNode.t) : state :=
  mk (Some (ClauseNode.clause_text node)) (Some (ClauseNode.node_id node)) [] false.

Definition step (session : Session) (st : state) (node : ClauseNode.t) : state :=
  if owned_by_restatement session node then reset node
  else
    let action := default "NO_CHANGE" (ClauseNode.change_action node) in
    if bool_decide (action = "REPLACE") then reset node
    else if bool_decide (action = "APPEND") then
      mk (base_text st) (base_node st)
         (append_chain st ++ [ClauseNode.clause_text node])%list false
    else if bool_decide (action = "ADD_NEW") then
      match base_text st with
      | None => mk (Some (ClauseNode.clause_text node))
                   (Some (ClauseNode.node_id node)) (append_chain st) (deleted st)
      | Some _ => reset node
      end
    else if bool_decide (action = "DELETE") then mk None None [] true
    else if bool_decide (action = "NO_CHANGE") then
      match base_text st with
      | None => mk (Some (ClauseNode.clause_text node))
                   (Some (ClauseNode.node_id node)) (append_chain st) (deleted st)
      | Some _ => st
      end
    else st.

(** The state after all the nodes of a key, in processing order. *)
Definition run (session : Session) (family_id canonical_section_id : string) : state :=
  foldl (step session) init (section_nodes family_id canonical_section_id session).

End SpecFold.

(** ** Concrete sessions *)

Module Examples.

Definition acme_widget : Family.t := Family.mk "F" "K" "acme" "widget" 0.

Definition master : ContractDocument.t :=
  ContractDocument.mk "d1" "h1" (Some "F") (Some "master")
                      (Some 1) (Some 1) (Some 20240101) 1.
Definition amendment : ContractDocument.t :=
  ContractDocument.mk "d2" "h2" (Some "F") (Some "amendment")
                      (Some 2) (Some 2) (Some 20240601) 2.
Definition restated : ContractDocument.t :=
  ContractDocument.mk "d3" "h3" (Some "F") (Some "restatement")
                      (Some 3) (Some 3) (Some 20240901) 3.

(** A clause node of section [sec] in family ["F"]. *)
Definition node (nid did sec : string) (action : option string)
    (ets : option Z) (text : string) (created : Z) : ClauseNode.t :=
  ClauseNode.mk nid did "F" sec None action None ets text created.

Definition with_nodes (nodes : list ClauseNode.t) : Session :=
  mkSession [acme_widget] [master; amendment; restated] nodes ∅.

(** The end-to-end scenario: the master states section 5.3, the
    amendment replaces it. *)
Definition liability : Session :=
  with_nodes
    [node "n1" "d1" "5.3" (Some "NO_CHANGE") (Some 20240101) "cap 500,000" 1;
     node "n2" "d2" "5.3" (Some "REPLACE") (Some 20240601) "cap 1,000,000" 2].

(** The master deletes a section, the amendment carries it forward. *)
Definition deleted_then_carried : Session :=
  with_nodes
    [node "n1" "d1" "7" (Some "DELETE") (Some 20240101) "intentionally omitted" 1;
     node "n2" "d2" "7" (Some "NO_CHANGE") (Some 20240601) "notices in writing" 2].

(** An appended rider arrives before the clause it is added to. *)
Definition append_then_add : Session :=
  with_nodes
    [node "n1" "d1" "8" (Some "APPEND") (Some 20240101) "rider" 1;
     node "n2" "d2" "8" (Some "ADD_NEW") (Some 20240601) "new clause" 2].

(** A section whose only fact is its deletion. *)
Definition only_deleted : Session :=
  with_nodes
    [node "n1" "d1" "9" (Some "DELETE") (Some 20240101) "intentionally omitted" 1].

(** A baseline and a later addition to it. *)
Definition replaced_then_appended : Session :=
  with_nodes
    [node "n1" "d1" "4" (Some "REPLACE") (Some 20240101) "base" 1;
     node "n2" "d2" "4" (Some "APPEND") (Some 20240601) "more" 2].

(** A restatement whose node is labelled [DELETE]. *)
Definition restated_delete : Session :=
  with_nodes
    [node "n1" "d1" "6" (Some "REPLACE") (Some 20240101) "old" 1;
     node "n2" "d3" "6" (Some "DELETE") (Some 20240901) "restated text" 2].

(** Two subsections, stored in either row order. *)
Definition sub1 : ClauseNode.t :=
  node "n1" "d1" "5.3.1" (Some "NO_CHANGE") (Some 20240101) "first" 1.
Definition sub2 : ClauseNode.t :=
  node "n2" "d1" "5.3.2" (Some "NO_CHANGE") (Some 20240101) "second" 2.
Definition subsections : Session := with_nodes [sub1; sub2].


(** A section whose nodes carry no effective date. *)
Definition undated : Session :=
  with_nodes
    [node "n1" "d1" "2" (Some "NO_CHANGE") None "undated text" 1].

(** A family with no document yet, and the two documents of the
    out-of-order arrival scenario as first stored. *)
Definition later_doc : ContractDocument.t :=
  ContractDocument.mk "late" "hl" (Some "F") None None None None 1.
Definition earlier_doc : ContractDocument.t :=
  ContractDocument.mk "early" "he" (Some "F") None None None None 2.
Definition arrival0 : Session := mkSession [acme_widget] [later_doc] [] ∅.
Definition arrival1 : Session :=
  (assign_doc_versions "late" "F" (Some 20240601) arrival0).2.
Definition arrival2 : Session :=
  mkSession (families arrival1) (documents arrival1 ++ [earlier_doc])%list
            (clause_nodes arrival1) (family_section_current arrival1).

Definition empty_session : Session := mkSession [] [] [] ∅.

(** A section materialized from its first node and deleted by a node that
    arrives afterwards. *)
Definition stated : Session :=
  with_nodes
    [node "n1" "d1" "9" (Some "REPLACE") (Some 20240101) "in force" 1].
Definition stated_then_deleted : Session :=
  mkSession [acme_widget] [master; amendment; restated]
    [node "n1" "d1" "9" (Some "REPLACE") (Some 20240101) "in force" 1;
     node "n2" "d2" "9" (Some "DELETE") (Some 20240601) "intentionally omitted" 2]
    (family_section_current (materialize_section 100 "F" "9" stated).2).

End Examples.

(** ** Predicates used in the statements *)

(** The name as [compute_family_keys_hash] sees it. *)
Definition normal_name (s : string) : string := Py.lower (Py.strip s).

(** Two party pairs that agree up to order, letter case and surrounding
    whitespace. *)
Definition same_parties (a b a' b' : string) : Prop :=
  (normal_name a = normal_name a' ∧ normal_name b = normal_name b')
  ∨ (normal_name a = normal_name b' ∧ normal_name b = normal_name a').

(** No stored family holds the primary key derived from [keys_hash] under
    another key hash, so creating the family cannot violate the key. *)
Definition pk_consistent (sha256 : string → string) (keys_hash : string)
    (session : Session) : Prop :=
  ∀ f, f ∈ families session →
       Family.family_id f = compute_family_id sha256 keys_hash →
       Family.family_keys_hash f = keys_hash.

(** Two optional rows that agree on everything but [updated_at]. *)
Definition same_content (r r' : option FamilySectionCurrent.t) : Prop :=
  match r, r' with
  | None, None => True
  | Some a, Some b =>
      FamilySectionCurrent.family_id a = FamilySectionCurrent.family_id b
      ∧ FamilySectionCurrent.canonical_section_id a
        = FamilySectionCurrent.canonical_section_id b
      ∧ FamilySectionCurrent.current_node_id a
        = FamilySectionCurrent.current_node_id b
      ∧ FamilySectionCurrent.current_effective_ts a
        = FamilySectionCurrent.current_effective_ts b
      ∧ FamilySectionCurrent.composed_text a = FamilySectionCurrent.composed_text b
  | _, _ => False
  end.

(** An optional row that, if present, was last updated at [now]. *)
Definition stamped (now : Z) (r : option FamilySectionCurrent.t) : Prop :=
  match r with
  | Some a => FamilySectionCurrent.updated_at a = Some now
  | None => True
  end.

(** The check constraint [ck_change_action] of the [clause_node] table. *)
Definition ck_change_action (n : ClauseNode.t) : Prop :=
  ClauseNode.change_action n
  ∈ [None; Some "REPLACE"; Some "APPEND"; Some "ADD_NEW"; Some "DELETE";
     Some "NO_CHANGE"].

(** The node moves the pointer of the fold ([base_node_id] and
    [base_effective_ts]) when it is read in state [st]: it belongs to a
    restatement, or replaces, appends, adds or deletes, or carries forward
    while there is no base text. *)
Definition moves_pointer (restatement_doc_ids : gset string) (st : FoldState)
    (node : ClauseNode.t) : bool :=
  bool_decide (ClauseNode.doc_id node ∈ restatement_doc_ids)
  || bool_decide (action_of node ∈ ["REPLACE"; "APPEND"; "ADD_NEW"; "DELETE"])
  || (bool_decide (action_of node = "NO_CHANGE")
      && bool_decide (base_text st = None)).

(** The effect of the ranking loop on one document, in closed form: a
    document whose id is at position [i] of [family_docs] gets rank
    [rank + i], any other document is left alone. *)
Definition ranked_at (rank : Z) (family_docs : list ContractDocument.t)
    (d : ContractDocument.t) : ContractDocument.t :=
  match list_find (λ fd, ContractDocument.doc_id fd = ContractDocument.doc_id d)
                  family_docs with
  | Some (i, _) => with_timeline (rank + Z.of_nat i) d
  | None => d
  end.

(** The id tried by the second step of [_resolve_section_id]. *)
Definition semantic_id_of (section_query : string) : string :=
  "semantic:" ++ Py.replace_char " "%char "_"%char (Py.lower section_query).

(** The same facts with the clause nodes stored in another row order. *)
Definition set_clause_nodes (nodes : list ClauseNode.t) (session : Session) : Session :=
  mkSession (families session) (documents session) nodes
            (family_section_current session).


(** ** Further operations of the same modules *)

(** The distinct section ids of a family's nodes, as [materialize_family]
    queries them. *)
Definition family_section_ids (family_id : string) (session : Session) : list string :=
  distinct (ClauseNode.canonical_section_id
              <$> filter (in_family_node family_id) (clause_nodes session)).

(** [materialize_family]: recompute every section of a family that has a
    node. *)
Definition materialize_family (clock : nat → Z) (family_id : string)
    (session : Session) : Z * Session :=
  materialize_loop clock family_id (family_section_ids family_id session)
                   0 0 session.

(** *** History ([query_history]) *)

(** One entry of the [timeline] list; [extracted_facts] and [confidence]
    are left out with their columns. *)
Record HistoryEntry := mkHistory {
  he_doc_version : option Z;
  he_doc_type : option string;
  he_change_action : option string;
  he_effective_ts : option Z;
  he_clause_text : string;
}.

Inductive HistoryError :=
  | HistoryFamilyNotFound
      (** ["Family not found."] *)
  | NoHistory (resolved_section : string)
      (** ["No history found for section '..'."] *).

(** The result of [query_history]: [hr_data] holds [timeline] and
    [total_versions]. *)
Record HistoryResult := mkHistoryResult {
  hr_scenario : string;
  hr_family_id : string;
  hr_canonical_section_id : string;
  hr_data : option (list HistoryEntry * Z);
  hr_error : option HistoryError;
}.

Definition history_entry (session : Session) (node : ClauseNode.t) : HistoryEntry :=
  let doc := get_document session (ClauseNode.doc_id node) in
  mkHistory
    (match doc with
     | Some d => ContractDocument.doc_version_timeline d
     | None => None
     end)
    (match doc with
     | Some d => ContractDocument.doc_type d
     | None => None
     end)
    (ClauseNode.change_action node)
    (ClauseNode.effective_ts node)
    (ClauseNode.clause_text node).

(** The nodes of a key in the order [query_history] reads them. *)
Definition history_nodes (family_id canonical_section_id : string)
    (session : Session) : list ClauseNode.t :=
  order_by node_ts_leb
    (filter (for_key family_id canonical_section_id) (clause_nodes session)).

Definition query_history (sha256 : string → string) (session : Session)
    (section : string) (family_id party_a party_b : option string) : HistoryResult :=
  match _resolve_family sha256 session family_id party_a party_b with
  | None =>
      mkHistoryResult "HISTORY" (Py.or_else family_id "") section None
                      (Some HistoryFamilyNotFound)
  | Some family =>
      let fid := Family.family_id family in
      let resolved_section := _resolve_section_id session fid section in
      let nodes := history_nodes fid resolved_section session in
      match nodes with
      | [] =>
          mkHistoryResult "HISTORY" fid resolved_section None
                          (Some (NoHistory resolved_section))
      | _ :: _ =>
          let timeline := history_entry session <$> nodes in
          mkHistoryResult "HISTORY" fid resolved_section
                          (Some (timeline, Z.of_nat (length timeline))) None
      end
  end.

(** *** Validators of the enrichment output ([utils/validation.py]) *)

(** [ClauseEnrichmentOutput.validate_change_action]. *)
Definition validate_change_action (v : option string) : option string :=
  match v with
  | Some v =>
      let v_upper := Py.upper v in
      if bool_decide (v_upper ∈ ["REPLACE"; "APPEND"; "ADD_NEW"; "DELETE"; "NO_CHANGE"])
      then Some v_upper
      else None
  | None => None
  end.

(** [MetadataResolverOutput.validate_doc_type]. *)
Definition validate_doc_type (v : option string) : option string :=
  match v with
  | Some s =>
      if bool_decide (Py.lower s ∈ ["master"; "amendment"; "restatement"; "sow";
                                    "addendum"])
      then if bool_decide (s = "") then None else Some (Py.lower s)
      else None
  | None => None
  end.

(** *** Clause storage ([ingestion/store.py], [compute_node_id]) *)

(** [str(n)] for an integer. *)
Definition str_of_int (n : Z) : string :=
  DecimalString.NilZero.string_of_int (Z.to_int n).

(** The string hashed by [compute_node_id]. *)
Definition node_key (doc_id : string) (page span_start span_end : Z)
    (canonical_section_id : string) : string :=
  doc_id ++ "|" ++ str_of_int page ++ "|" ++ str_of_int span_start ++ "|"
  ++ str_of_int span_end ++ "|" ++ canonical_section_id.

(** The string holds no ["|"], the separator of [node_key]. *)
Fixpoint no_bar (s : string) : bool :=
  match s with
  | EmptyString => true
  | String c s' => negb (bool_decide (c = "|"%char)) && no_bar s'
  end.

Definition compute_node_id (sha256 : string → string) (doc_id : string)
    (page span_start span_end : Z) (canonical_section_id : string) : string :=
  sha256 (node_key doc_id page span_start span_end canonical_section_id).

Module ClauseChunk.
Record t := mk {
  text : string;
  heading : string;
  page : Z;
  span_start : Z;
  span_end : Z;
  canonical_section_id : string;
  referenced_section_id : option string;
  section_title : option string;
  tier : string;
}.
End ClauseChunk.

Module EnrichedClause.
Record t := mk {
  chunk : ClauseChunk.t;
  canonical_section_id : string;
  referenced_section_id : option string;
  change_action : option string;
  modifies_section_id : option string;
  effective_ts : option Z;
}.
End EnrichedClause.

(** The check constraint of the node table, as a test. *)
Definition ck_change_action_b (change_action : option string) : bool :=
  bool_decide (change_action
               ∈ [None; Some "REPLACE"; Some "APPEND"; Some "ADD_NEW";
                  Some "DELETE"; Some "NO_CHANGE"]).

(** A [ClauseNode] object as the constructor call of [store_clause_sql]
    builds it: the columns that call sets.  The object itself is never
    flushed ([session.merge] copies its state onto the persistent row), so its
    [created_at] stays unset. *)
Module TransientNode.
Record t := mk {
  node_id : string;
  doc_id : string;
  family_id : string;
  canonical_section_id : string;
  referenced_section_id : option string;
  change_action : option string;
  modifies_section_id : option string;
  effective_ts : option Z;
  clause_text : string;
}.
End TransientNode.

(** The stored row that carries the columns of [node] and the given
    [created_at]. *)
Definition row_of (created_at : Z) (node : TransientNode.t) : ClauseNode.t :=
  ClauseNode.mk (TransientNode.node_id node) (TransientNode.doc_id node)
    (TransientNode.family_id node) (TransientNode.canonical_section_id node)
    (TransientNode.referenced_section_id node) (TransientNode.change_action node)
    (TransientNode.modifies_section_id node) (TransientNode.effective_ts node)
    (TransientNode.clause_text node) created_at.

Definition get_node (nodes : list ClauseNode.t) (node_id : string)
  : option ClauseNode.t :=
  List.find (λ n, bool_decide (ClauseNode.node_id n = node_id)) nodes.

(** The row that [session.merge(node)] leaves under the key of [node]: a
    stored row with that primary key takes the column values of [node] and
    keeps its own [created_at]; a new row gets the clock reading as
    [created_at]. *)
Definition merged_row (now : Z) (node : TransientNode.t) (nodes : list ClauseNode.t)
  : ClauseNode.t :=
  match get_node nodes (TransientNode.node_id node) with
  | Some old => row_of (ClauseNode.created_at old) node
  | None => row_of now node
  end.

(** [session.merge(node); session.flush()] on the node table. *)
Definition merge_node (now : Z) (node : TransientNode.t) (nodes : list ClauseNode.t)
  : list ClauseNode.t :=
  match get_node nodes (TransientNode.node_id node) with
  | Some _ =>
      (λ n, if bool_decide (ClauseNode.node_id n = TransientNode.node_id node)
            then row_of (ClauseNode.created_at n) node else n) <$> nodes
  | None => nodes ++ [row_of now node]
  end.

(** The value fits an [INTEGER] column of SQLite (64 bits, signed); the
    driver raises [OverflowError] when it is given any other. *)
Definition int64 (n : Z) : bool := (- 2 ^ 63 <=? n) && (n <? 2 ^ 63).

(** The object built by the constructor call of [store_clause_sql]. *)
Definition new_clause_node (sha256 : string → string) (enriched : EnrichedClause.t)
    (doc_id family_id : string) (doc_effective_ts : option Z) : TransientNode.t :=
  let chunk := EnrichedClause.chunk enriched in
  let node_id :=
    compute_node_id sha256 doc_id (ClauseChunk.page chunk)
      (ClauseChunk.span_start chunk) (ClauseChunk.span_end chunk)
      (EnrichedClause.canonical_section_id enriched) in
  let effective :=
    match EnrichedClause.effective_ts enriched with
    | Some t => Some t
    | None => doc_effective_ts
    end in
  TransientNode.mk node_id doc_id family_id
    (EnrichedClause.canonical_section_id enriched)
    (EnrichedClause.referenced_section_id enriched)
    (EnrichedClause.change_action enriched)
    (EnrichedClause.modifies_section_id enriched)
    effective (ClauseChunk.text chunk).

(** [store_clause_sql]: [None] is the exception raised by the flush, an
    integrity error when the document or the family row is missing (foreign
    keys) or the change action violates the check constraint, an overflow
    error when [page], [span_start] or [span_end] does not fit its column;
    otherwise the object the function returns, which is the transient
    instance it built, and the session afterwards. *)
Definition store_clause_sql (sha256 : string → string) (now : Z)
    (enriched : EnrichedClause.t) (doc_id family_id : string)
    (doc_effective_ts : option Z) (session : Session)
  : option (TransientNode.t * Session) :=
  let chunk := EnrichedClause.chunk enriched in
  let node := new_clause_node sha256 enriched doc_id family_id doc_effective_ts in
  match get_document session doc_id, get_family session family_id with
  | Some _, Some _ =>
      if ck_change_action_b (EnrichedClause.change_action enriched)
         && int64 (ClauseChunk.page chunk)
         && int64 (ClauseChunk.span_start chunk)
         && int64 (ClauseChunk.span_end chunk)
      then
        Some (node,
              set_clause_nodes (merge_node now node (clause_nodes session)) session)
      else None
  | _, _ => None
  end.

(** [store_all_clauses_sql]: the returned objects in order, or the first
    exception; [clock i] is the clock reading of the call number [i]. *)
Fixpoint store_loop (sha256 : string → string) (clock : nat → Z) (call : nat)
    (enriched_clauses : list EnrichedClause.t) (doc_id family_id : string)
    (doc_effective_ts : option Z) (nodes : list TransientNode.t) (session : Session)
  : option (list TransientNode.t * Session) :=
  match enriched_clauses with
  | [] => Some (nodes, session)
  | enriched :: rest =>
      match store_clause_sql sha256 (clock call) enriched doc_id family_id
                             doc_effective_ts session with
      | Some (node, session') =>
          store_loop sha256 clock (S call) rest doc_id family_id doc_effective_ts
                     (nodes ++ [node])%list session'
      | None => None
      end
  end.

Definition store_all_clauses_sql (sha256 : string → string) (clock : nat → Z)
    (enriched_clauses : list EnrichedClause.t) (doc_id family_id : string)
    (doc_effective_ts : option Z) (session : Session)
  : option (list TransientNode.t * Session) :=
  store_loop sha256 clock 0 enriched_clauses doc_id family_id doc_effective_ts
             [] session.

(** *** Predicates on the steps of the supersession loops *)

(** The node belongs to a document stored with [doc_type = "restatement"]. *)
Definition in_restatement (session : Session) (node : ClauseNode.t) : Prop :=
  ∃ doc, get_document session (ClauseNode.doc_id node) = Some doc
         ∧ ContractDocument.doc_type doc = Some "restatement".

(** The step at which the loop of [query_as_of] and the loop of
    [materialize_section] part: outside a restatement, an [ADD_NEW] read
    with no base text and a pending append chain, or a [NO_CHANGE] read with
    no base text in a deleted state. *)
Definition loops_differ_at (restatement_doc_ids : gset string) (st : FoldState)
    (node : ClauseNode.t) : bool :=
  negb (bool_decide (ClauseNode.doc_id node ∈ restatement_doc_ids))
  && bool_decide (base_text st = None)
  && ((bool_decide (action_of node = "ADD_NEW")
       && negb (bool_decide (append_chain st = [])))
      || (bool_decide (action_of node = "NO_CHANGE") && is_deleted st)).

(** The node gives the section a base text whatever the state. *)
Definition establishes_baseline (restatement_doc_ids : gset string)
    (node : ClauseNode.t) : bool :=
  bool_decide (ClauseNode.doc_id node ∈ restatement_doc_ids)
  || bool_decide (action_of node ∈ ["REPLACE"; "ADD_NEW"; "NO_CHANGE"]).

(** The node deletes the section: a [DELETE] outside a restatement. *)
Definition is_plain_delete (restatement_doc_ids : gset string)
    (node : ClauseNode.t) : bool :=
  negb (bool_decide (ClauseNode.doc_id node ∈ restatement_doc_ids))
  && bool_decide (action_of node = "DELETE").

(** The node resets the state whatever it was: it belongs to a restatement
    or replaces. *)
Definition resets (session : Session) (node : ClauseNode.t) : Prop :=
  in_restatement session node ∨ action_of node = "REPLACE".

(** * Properties *)

(** ** Facts about [ORDER BY] and primary-key reads *)

Section order_by_facts.
Context {A : Type} (leb : A → A → bool).

Lemma insert_by_Permutation x l : insert_by leb x l ≡ₚ x :: l.
Proof.
  induction l as [|y l IH]; simpl; [done|].
  destruct (leb x y); [done|].
  rewrite IH. apply Permutation_swap.
Qed.

Lemma order_by_Permutation l : order_by leb l ≡ₚ l.
Proof.
  induction l as [|x l IH]; simpl; [done|].
  by rewrite insert_by_Permutation, IH.
Qed.

Lemma order_by_nil_iff l : order_by leb l = [] ↔ l = [].
Proof.
  split; [|by intros ->].
  intros H. apply Permutation_nil_r. rewrite <-H.
  symmetry. apply order_by_Permutation.
Qed.

Lemma order_by_elem_of x l : x ∈ order_by leb l ↔ x ∈ l.
Proof. by rewrite order_by_Permutation. Qed.

Section total.
Hypothesis leb_total : ∀ x y, leb x y = true ∨ leb y x = true.

Lemma insert_by_Sorted x l :
  Sorted (λ a b, leb a b = true) l →
  Sorted (λ a b, leb a b = true) (insert_by leb x l).
Proof.
  induction 1 as [|y l Hl IH Hy]; simpl.
  - repeat constructor.
  - destruct (leb x y) eqn:E.
    + constructor; [by constructor|by constructor].
    + constructor; [done|].
      destruct Hy as [|z l Hz]; simpl.
      * constructor. destruct (leb_total x y); congruence.
      * destruct (leb x z); constructor; [|done].
        destruct (leb_total x y); congruence.
Qed.

Lemma order_by_Sorted l : Sorted (λ a b, leb a b = true) (order_by leb l).
Proof.
  induction l as [|x l IH]; simpl; [constructor|].
  by apply insert_by_Sorted.
Qed.
End total.
End order_by_facts.

Lemma get_document_Some session k doc :
  get_document session k = Some doc →
  doc ∈ documents session ∧ ContractDocument.doc_id doc = k.
Proof.
  unfold get_document. intros H. apply find_some in H as [Hin Hk].
  split; [by apply list_elem_of_In|by apply bool_decide_eq_true in Hk].
Qed.

(** ** Restatement documents *)

Lemma collect_restatements_acc session nodes (acc : gset string) x :
  x ∈ acc →
  x ∈ foldl (λ acc node,
               match get_document session (ClauseNode.doc_id node) with
               | Some doc =>
                   if bool_decide (ContractDocument.doc_type doc = Some "restatement")
                   then acc ∪ {[ContractDocument.doc_id doc]}
                   else acc
               | None => acc
               end) acc nodes.
Proof.
  revert acc. induction nodes as [|n nodes IH]; intros acc Hx; simpl; [done|].
  apply IH. destruct (get_document _ _); [|done].
  case_bool_decide; set_solver.
Qed.

Lemma collect_restatements_elem session nodes node doc :
  node ∈ nodes →
  get_document session (ClauseNode.doc_id node) = Some doc →
  ContractDocument.doc_type doc = Some "restatement" →
  ClauseNode.doc_id node ∈ collect_restatements session nodes.
Proof.
  unfold collect_restatements. generalize (∅ : gset string).
  induction nodes as [|n nodes IH]; intros acc Hin Hdoc Hty; [by inv Hin|].
  apply elem_of_cons in Hin as [->|Hin]; simpl.
  - apply collect_restatements_acc. rewrite Hdoc.
    rewrite bool_decide_eq_true_2 by done.
    apply get_document_Some in Hdoc as [_ ->]. set_solver.
  - by apply IH.
Qed.

(** C5.  A node whose owning document has [doc_type = "restatement"] resets
    the fold state whatever its own [change_action] says: the base text
    becomes the node's text, the append chain is emptied and the deleted flag
    is cleared.  This holds from every state, for the loop of
    [materialize_section] and for the one inlined in [query_as_of]. *)
Theorem restatement_node_resets_state
    (session : Session) (nodes : list ClauseNode.t) (node : ClauseNode.t)
    (doc : ContractDocument.t) (st : FoldState) :
  node ∈ nodes →
  get_document session (ClauseNode.doc_id node) = Some doc →
  ContractDocument.doc_type doc = Some "restatement" →
  let reset :=
    mkFold (Some (ClauseNode.clause_text node)) (Some (ClauseNode.node_id node))
           (ClauseNode.effective_ts node) false [] in
  supersede (collect_restatements session nodes) st node = reset
  ∧ supersede_as_of (collect_restatements session nodes) st node = reset.
Proof.
  intros Hin Hdoc Hty reset.
  pose proof (collect_restatements_elem _ _ _ _ Hin Hdoc Hty) as Hmem.
  unfold supersede, supersede_as_of.
  by rewrite !bool_decide_eq_true_2 by done.
Qed.

Lemma restatement_node_resets_state_witness :
  let s := Examples.restated_delete in
  let nodes := section_nodes "F" "6" s in
  let n2 := Examples.node "n2" "d3" "6" (Some "DELETE") (Some 20240901)
                          "restated text" 2 in
  let st := foldl (supersede (collect_restatements s nodes)) initial_state
                  (take 1 nodes) in
  supersede (collect_restatements s nodes) st n2
  = mkFold (Some "restated text") (Some "n2") (Some 20240901) false [].
Proof.
  intros s nodes n2 st.
  refine (proj1 (restatement_node_resets_state s nodes n2 Examples.restated st _ _ _)).
  - vm_compute. apply list_elem_of_further, list_elem_of_here.
  - reflexivity.
  - reflexivity.
Defined.

(** ** Change tracking *)

(** C8.  When the requested timeline version resolves to a document none of
    whose nodes touches the (resolved) section, [query_changes] answers
    without error and with an empty [changes] list; it reports an error
    exactly when the family cannot be resolved or no document of the family
    has that timeline version. *)
Theorem query_changes_untouched_section
    (sha256 : string → string) (session : Session) (section : string)
    (doc_version : Z) (family_id party_a party_b : option string) :
  let r := query_changes sha256 session section doc_version
                         family_id party_a party_b in
  let family := _resolve_family sha256 session family_id party_a party_b in
  (∀ fam doc,
     family = Some fam →
     find_version session (Family.family_id fam) doc_version = Some doc →
     let resolved := _resolve_section_id session (Family.family_id fam) section in
     filter (touching (ContractDocument.doc_id doc) resolved)
            (clause_nodes session) = [] →
     error r = None
     ∧ data r = Some (ChangeData doc_version (ContractDocument.doc_type doc) []
                                 (Some (doc_version, resolved))))
  ∧ (is_Some (error r) ↔
       family = None
       ∨ ∃ fam, family = Some fam
                ∧ find_version session (Family.family_id fam) doc_version = None).
Proof.
  intros r family. subst r family. unfold query_changes.
  destruct (_resolve_family sha256 session family_id party_a party_b) as [fam|];
    simpl.
  - split.
    + intros fam' doc [= <-] Hdoc Hnil.
      by rewrite Hdoc, Hnil.
    + destruct (find_version session (Family.family_id fam) doc_version)
        as [doc|] eqn:Hdoc; simpl.
      * destruct (filter _ _); simpl; split.
        -- by intros [? [=]].
        -- intros [[=]|(fam' & [= <-] & Hnone)]. congruence.
        -- by intros [? [=]].
        -- intros [[=]|(fam' & [= <-] & Hnone)]. congruence.
      * split; [|by eauto]. intros _. right. by exists fam.
  - split; [by intros ? ? [=]|]. split; [by left|by eauto].
Qed.

Lemma query_changes_untouched_section_witness :
  let r := query_changes tagged_digest Examples.liability "10.1" 2
                         (Some "F") None None in
  error r = None
  ∧ data r = Some (ChangeData 2 (Some "amendment") [] (Some (2, "10.1"))).
Proof.
  exact (proj1 (query_changes_untouched_section tagged_digest Examples.liability
                  "10.1" 2 (Some "F") None None)
               Examples.acme_widget Examples.amendment
               eq_refl eq_refl eq_refl).
Defined.

(** ** Undated nodes *)

Lemma filter_none {A} (P : A → Prop) `{∀ x, Decision (P x)} (l : list A) :
  (∀ x, x ∈ l → ¬ P x) → filter P l = [].
Proof.
  induction l as [|x l IH]; intros Hl; [done|].
  rewrite filter_cons, decide_False by (apply Hl; left).
  apply IH. intros y Hy. apply Hl. by right.
Qed.

(** C10.  If every clause node of the (resolved) key has a null
    [effective_ts], then [query_as_of] answers with the no-data error at
    every cutoff date, whatever the materialized table holds, because a null
    date never passes [effective_ts <= cutoff]; materialization, on the
    other hand, reads every node of the key, undated ones included. *)
Theorem undated_key_has_no_as_of
    (sha256 : string → string) (session : Session) (section : string)
    (family_id party_a party_b : option string) (fam : Family.t) :
  _resolve_family sha256 session family_id party_a party_b = Some fam →
  let fid := Family.family_id fam in
  let resolved := _resolve_section_id session fid section in
  (∀ n, n ∈ clause_nodes session → for_key fid resolved n →
        ClauseNode.effective_ts n = None) →
  (∀ as_of_date,
     query_as_of sha256 session section as_of_date family_id party_a party_b
     = mkResult "AS_OF" fid resolved None (Some (NoDataAsOf resolved as_of_date)))
  ∧ section_nodes fid resolved session
    ≡ₚ filter (for_key fid resolved) (clause_nodes session).
Proof.
  intros Hfam fid resolved Hnull. split.
  - intros as_of_date. unfold query_as_of. rewrite Hfam. fold fid resolved.
    unfold as_of_nodes. rewrite filter_none; [done|].
    intros n Hn [Hkey Heff]. unfold effective_by in Heff.
    by rewrite (Hnull n Hn Hkey) in Heff.
  - apply order_by_Permutation.
Qed.

Lemma undated_key_has_no_as_of_witness :
  let s := (materialize_section 100 "F" "2" Examples.undated).2 in
  query_as_of tagged_digest s "2" 20250101 (Some "F") None None
  = mkResult "AS_OF" "F" "2" None (Some (NoDataAsOf "2" 20250101))
  ∧ data (query_current tagged_digest s "2" (Some "F") None None)
    = Some (CurrentData (Some "undated text") (Some "n1") None (Some 100)).
Proof.
  intros s. split; [|reflexivity].
  refine (proj1 (undated_key_has_no_as_of tagged_digest s "2" (Some "F") None None
                   Examples.acme_widget eq_refl _) 20250101).
  intros n Hn Hkey. vm_compute in Hn.
  apply list_elem_of_singleton in Hn. by subst n.
Defined.

(** ** The two copies of the supersession loop *)

(** C1.  The loop inlined in [query_as_of] is not the loop of
    [materialize_section].  On a section deleted by one node and carried
    forward by a later [NO_CHANGE] node, with a cutoff that every node
    passes, materialization composes the carried text while the as-of query
    reports the section deleted; on an [APPEND] followed by an [ADD_NEW],
    materialization keeps the appended part and the as-of query drops it. *)
Theorem as_of_diverges_from_materialize :
  let s := Examples.deleted_then_carried in
  let s' := Examples.append_then_add in
  let cutoff := 20241231 in
  as_of_nodes "F" "7" cutoff s = section_nodes "F" "7" s
  ∧ materialize_outcome (materialize_fold s (section_nodes "F" "7" s))
    = (Some "notices in writing", Some "n2")
  ∧ is_deleted (materialize_fold s (section_nodes "F" "7" s)) = false
  ∧ data (query_as_of tagged_digest s "7" cutoff (Some "F") None None)
    = Some (AsOfDeleted cutoff)
  ∧ as_of_nodes "F" "8" cutoff s' = section_nodes "F" "8" s'
  ∧ materialize_outcome (materialize_fold s' (section_nodes "F" "8" s'))
    = (Some (Py.join blank_line ["new clause"; "rider"]), Some "n2")
  ∧ data (query_as_of tagged_digest s' "8" cutoff (Some "F") None None)
    = Some (AsOfActive cutoff (Some "new clause") (Some "n2") (Some 20240601)).
Proof. repeat split; reflexivity. Qed.

(** ** Family matching *)

Lemma sorted2_join_comm (x y : string) :
  Py.join "|" (Py.sorted2 x y) = Py.join "|" (Py.sorted2 y x).
Proof.
  unfold Py.sorted2, String.ltb. rewrite (String.compare_antisym x y).
  destruct (String.compare y x) eqn:E; simpl; try done.
  apply String.compare_eq_iff in E. by subst.
Qed.

Lemma find_snoc {A} (f : A → bool) (l : list A) (x : A) :
  List.find f (l ++ [x])
  = match List.find f l with
    | Some y => Some y
    | None => if f x then Some x else None
    end.
Proof.
  induction l as [|y l IH]; simpl; [done|].
  by destruct (f y).
Qed.

Section family_facts.
Context (sha256 : string → string).

Lemma family_keys_hash_sym a b :
  compute_family_keys_hash sha256 a b = compute_family_keys_hash sha256 b a.
Proof. unfold compute_family_keys_hash. by rewrite sorted2_join_comm. Qed.

Lemma family_keys_hash_same_parties a b a' b' :
  same_parties a b a' b' →
  compute_family_keys_hash sha256 a b = compute_family_keys_hash sha256 a' b'.
Proof.
  unfold same_parties, normal_name.
  intros [[Ha Hb]|[Ha Hb]].
  - unfold compute_family_keys_hash. by rewrite Ha, Hb.
  - rewrite (family_keys_hash_sym a' b').
    unfold compute_family_keys_hash. by rewrite Ha, Hb.
Qed.

(** C7.  [compute_family_keys_hash] is symmetric in its arguments, and two
    calls of [match_or_create_family] whose party names agree up to order,
    letter case and surrounding whitespace return the same family id, the
    second call leaving the session as the first one left it.  The first
    call returns whenever the primary key derived from the key hash is not
    held by a family with another key hash. *)
Theorem match_or_create_family_idempotent
    (now now' : Z) (a b a' b' : string) (session : Session) :
  same_parties a b a' b' →
  compute_family_keys_hash sha256 a b = compute_family_keys_hash sha256 b a
  ∧ (∀ fid session1,
       match_or_create_family sha256 now a b session = Some (fid, session1) →
       match_or_create_family sha256 now' a' b' session1 = Some (fid, session1))
  ∧ (pk_consistent sha256 (compute_family_keys_hash sha256 a b) session →
     is_Some (match_or_create_family sha256 now a b session)).
Proof.
  intros Hsame. split; [apply family_keys_hash_sym|].
  pose proof (family_keys_hash_same_parties _ _ _ _ Hsame) as Hkh.
  unfold match_or_create_family. rewrite <-Hkh.
  set (kh := compute_family_keys_hash sha256 a b) in *.
  destruct (List.find _ (families session)) as [existing|] eqn:Hfind.
  { split; [|by eauto]. intros fid session1 [= <- <-]. by rewrite Hfind. }
  unfold add_family.
  set (new_family := Family.mk _ _ _ _ now).
  destruct (existsb _ (families session)) eqn:Hex.
  - split; [by intros ? ? [=]|]. intros Hpk. exfalso.
    apply existsb_exists in Hex as (f & Hin & Hf).
    pose proof (find_none _ _ Hfind f Hin) as Hne. simpl in Hne.
    apply bool_decide_eq_false in Hne.
    apply orb_true_iff in Hf as [Hf|Hf]; apply bool_decide_eq_true in Hf.
    + apply Hne, Hpk; [by apply list_elem_of_In|done].
    + done.
  - split; [|by eauto]. intros fid session1 [= <- <-]. simpl.
    rewrite find_snoc, Hfind. simpl.
    by rewrite bool_decide_eq_true_2.
Qed.
End family_facts.

Lemma match_or_create_family_idempotent_witness :
  let first :=
    match_or_create_family tagged_digest 1 "Acme " "widget" Examples.empty_session in
  compute_family_keys_hash tagged_digest "Acme " "widget"
  = compute_family_keys_hash tagged_digest "widget" "Acme "
  ∧ is_Some first
  ∧ match_or_create_family tagged_digest 2 " WIDGET" "acme"
      (default Examples.empty_session (snd <$> first))
    = first.
Proof.
  intros first.
  destruct (match_or_create_family_idempotent tagged_digest 1 2
              "Acme " "widget" " WIDGET" "acme" Examples.empty_session)
    as (Hsym & Hsame & Hret).
  { right. split; reflexivity. }
  split_and!.
  - exact Hsym.
  - apply Hret. intros f Hf. vm_compute in Hf. by apply elem_of_nil in Hf.
  - exact (Hsame _ _ eq_refl).
Defined.

(** ** Materialization *)

Lemma materialize_section_snd now f sec s :
  (materialize_section now f sec s).2
  = set_family_section_current
      (match section_nodes f sec s with
       | [] => delete (f, sec) (family_section_current s)
       | _ :: _ =>
           (upsert_current now f sec
              (materialize_fold s (section_nodes f sec s))
              (family_section_current s)).2
       end) s.
Proof.
  unfold materialize_section.
  destruct (section_nodes f sec s); [done|].
  by destruct (upsert_current _ _ _ _ _).
Qed.

Lemma section_nodes_set_current f sec cur s :
  section_nodes f sec (set_family_section_current cur s) = section_nodes f sec s.
Proof. done. Qed.

Lemma materialize_fold_set_current cur s nodes :
  materialize_fold (set_family_section_current cur s) nodes
  = materialize_fold s nodes.
Proof. done. Qed.

Lemma set_current_twice cur cur' s :
  set_family_section_current cur (set_family_section_current cur' s)
  = set_family_section_current cur s.
Proof. done. Qed.

(** The row of the key after the upsert, case by case. *)
Lemma upsert_current_lookup (now : Z) (f sec : string) (st : FoldState)
    (cur : gmap (string * string) FamilySectionCurrent.t) :
  (upsert_current now f sec st cur).2 !! (f, sec)
  = match cur !! (f, sec), materialize_outcome st with
    | None, (None, None) => None
    | None, (composed_text, current_node_id) =>
        Some (FamilySectionCurrent.mk f sec current_node_id
                (base_effective_ts st) composed_text (Some now))
    | Some row, (composed_text, current_node_id) =>
        Some (FamilySectionCurrent.mk
                (FamilySectionCurrent.family_id row)
                (FamilySectionCurrent.canonical_section_id row)
                current_node_id (base_effective_ts st) composed_text (Some now))
    end.
Proof.
  unfold upsert_current.
  destruct (materialize_outcome st) as [ct nid].
  destruct (cur !! (f, sec)) as [row|] eqn:Hrow; simpl.
  - by rewrite lookup_insert_eq.
  - destruct ct, nid; simpl; by rewrite ?lookup_insert_eq.
Qed.

Lemma upsert_current_idem (now : Z) (f sec : string) (st : FoldState)
    (cur : gmap (string * string) FamilySectionCurrent.t) :
  (upsert_current now f sec st (upsert_current now f sec st cur).2).2
  = (upsert_current now f sec st cur).2.
Proof.
  unfold upsert_current.
  destruct (materialize_outcome st) as [ct nid].
  destruct (cur !! (f, sec)) as [row|] eqn:Hrow; simpl.
  - by rewrite lookup_insert_eq, insert_insert_eq.
  - destruct ct, nid; simpl;
      by rewrite ?Hrow, ?lookup_insert_eq, ?insert_insert_eq.
Qed.

(** C2, as the code has it.  Re-running [materialize_section] over an
    unchanged node set leaves the row of the key with the same family,
    section, node pointer, effective date and composed text (and absent if it
    was absent), but stamps [updated_at] with the clock reading of the second
    run; only a second run at the same clock reading leaves the session
    identical. *)
Theorem materialize_section_idempotent_up_to_clock
    (now1 now2 : Z) (f sec : string) (s : Session) :
  let s1 := (materialize_section now1 f sec s).2 in
  let s2 := (materialize_section now2 f sec s1).2 in
  (materialize_section now1 f sec s1).2 = s1
  ∧ same_content (family_section_current s1 !! (f, sec))
                 (family_section_current s2 !! (f, sec))
  ∧ stamped now2 (family_section_current s2 !! (f, sec)).
Proof.
  intros s1 s2. subst s2 s1.
  rewrite !(materialize_section_snd _ f sec s).
  rewrite !materialize_section_snd.
  rewrite !section_nodes_set_current, !materialize_fold_set_current.
  rewrite !set_current_twice. simpl.
  destruct (section_nodes f sec s) as [|n nodes] eqn:Hnodes.
  - rewrite delete_delete_eq, lookup_delete_eq. done.
  - rewrite upsert_current_idem. split; [done|].
    rewrite !upsert_current_lookup.
    set (st := materialize_fold s (n :: nodes)).
    destruct (materialize_outcome st) as [ct nid].
    destruct (family_section_current s !! (f, sec)) as [row|]; simpl.
    + done.
    + destruct ct, nid; simpl; done.
Qed.

(** C2, as stated, fails: two runs at different clock readings leave rows
    that differ in [updated_at]. *)
Lemma materialize_section_restamps_row :
  let s1 := (materialize_section 100 "F" "5.3" Examples.liability).2 in
  let s2 := (materialize_section 200 "F" "5.3" s1).2 in
  family_section_current s1 !! ("F", "5.3")
  ≠ family_section_current s2 !! ("F", "5.3").
Proof. vm_compute. discriminate. Qed.

(** C3, as the code has it.  When the fold of a key ends deleted, a row that
    existed before is kept with a null composed text and a null node pointer,
    and a key that had no row gets none; when the key has no clause node,
    no row exists afterwards. *)
Theorem materialize_deleted_or_absent
    (now : Z) (f sec : string) (s : Session) :
  let nodes := section_nodes f sec s in
  let cur := family_section_current s in
  let cur' := family_section_current (materialize_section now f sec s).2 in
  (nodes ≠ [] → is_deleted (materialize_fold s nodes) = true →
   match cur !! (f, sec) with
   | Some _ =>
       ∃ row, cur' !! (f, sec) = Some row
              ∧ FamilySectionCurrent.composed_text row = None
              ∧ FamilySectionCurrent.current_node_id row = None
   | None => cur' !! (f, sec) = None
   end)
  ∧ (filter (for_key f sec) (clause_nodes s) = [] → cur' !! (f, sec) = None).
Proof.
  intros nodes cur cur'. subst cur'. rewrite materialize_section_snd. simpl.
  fold nodes cur. split.
  - intros Hne Hdel. destruct nodes as [|n nodes'] eqn:Hnodes; [done|].
    rewrite upsert_current_lookup. unfold materialize_outcome. rewrite Hdel.
    destruct (cur !! (f, sec)); [|done]. eexists. by split.
  - intros Hzero. subst nodes. unfold section_nodes. rewrite Hzero. simpl.
    apply lookup_delete_eq.
Qed.

Lemma materialize_deleted_or_absent_witness :
  ∃ row,
    family_section_current
      (materialize_section 200 "F" "9" Examples.stated_then_deleted).2
    !! ("F", "9") = Some row
    ∧ FamilySectionCurrent.composed_text row = None
    ∧ FamilySectionCurrent.current_node_id row = None.
Proof.
  refine (proj1 (materialize_deleted_or_absent 200 "F" "9"
                   Examples.stated_then_deleted) _ _).
  - vm_compute. discriminate.
  - reflexivity.
Defined.

(** C3, as stated, fails: a key whose only node is a [DELETE], materialized
    for the first time, ends deleted and has no row. *)
Lemma deleted_key_without_row_gets_none :
  let s := Examples.only_deleted in
  section_nodes "F" "9" s ≠ []
  ∧ is_deleted (materialize_fold s (section_nodes "F" "9" s)) = true
  ∧ family_section_current (materialize_section 100 "F" "9" s).2 !! ("F", "9")
    = None.
Proof. split; [vm_compute; discriminate|split; reflexivity]. Qed.

(** *** The node the row points to *)

Lemma supersede_not_mover rs st n :
  moves_pointer rs st n = false → supersede rs st n = st.
Proof.
  unfold moves_pointer, supersede.
  intros H. apply orb_false_iff in H as [H Hnc].
  apply orb_false_iff in H as [Hrs Hact].
  rewrite Hrs. apply bool_decide_eq_false in Hact.
  rewrite !bool_decide_eq_false_2
    by (intros E; apply Hact; rewrite E; set_solver).
  case_bool_decide as Hno; [|done].
  simpl in Hnc. apply bool_decide_eq_false in Hnc. by destruct (base_text st).
Qed.

Lemma supersede_mover rs st n :
  moves_pointer rs st n = true →
  is_deleted (supersede rs st n) = false →
  base_node_id (supersede rs st n) = Some (ClauseNode.node_id n)
  ∧ base_effective_ts (supersede rs st n) = ClauseNode.effective_ts n.
Proof.
  unfold moves_pointer, supersede. intros Hmove.
  intros Hdel; revert Hdel.
  repeat case_bool_decide; simpl in *; try done;
    destruct (base_text st) eqn:Hb; simpl; try done;
    exfalso;
    match goal with
    | Hin : action_of n ∈ _ |- _ =>
        repeat (apply elem_of_cons in Hin as [?|Hin]; [done|]);
        by apply elem_of_nil in Hin
    end.
Qed.

Lemma first_node_moves rs n :
  ck_change_action n → moves_pointer rs initial_state n = true.
Proof.
  unfold ck_change_action, moves_pointer, action_of. intros Hck.
  repeat (apply elem_of_cons in Hck as [->|Hck]);
    [..|by apply elem_of_nil in Hck];
    destruct (bool_decide (ClauseNode.doc_id n ∈ rs)); reflexivity.
Qed.

Lemma last_mover rs nodes :
  nodes ≠ [] →
  (∀ n, n ∈ nodes → ck_change_action n) →
  is_deleted (foldl (supersede rs) initial_state nodes) = false →
  ∃ pre n post,
    nodes = (pre ++ n :: post)%list
    ∧ moves_pointer rs (foldl (supersede rs) initial_state pre) n = true
    ∧ (∀ i m, post !! i = Some m →
              moves_pointer rs
                (foldl (supersede rs) initial_state (pre ++ n :: take i post)%list) m
              = false)
    ∧ base_node_id (foldl (supersede rs) initial_state nodes)
      = Some (ClauseNode.node_id n)
    ∧ base_effective_ts (foldl (supersede rs) initial_state nodes)
      = ClauseNode.effective_ts n.
Proof.
  induction nodes as [|x l IH] using rev_ind; [done|].
  intros _ Hck. rewrite foldl_snoc.
  destruct (moves_pointer rs (foldl (supersede rs) initial_state l) x) eqn:Hx.
  - intros Hdel. exists l, x, [].
    destruct (supersede_mover _ _ _ Hx Hdel) as [Hid Hts].
    repeat split; done.
  - rewrite supersede_not_mover by done. intros Hdel.
    destruct l as [|y l'].
    { rewrite first_node_moves in Hx; [done|]. apply Hck. simpl. left. }
    destruct IH as (pre & n & post & Hsplit & Hn & Hpost & Hid & Hts);
      [done|intros n Hin; apply Hck, elem_of_app; by left|done|].
    exists pre, n, (post ++ [x])%list.
    repeat split; try done.
    + rewrite Hsplit. by rewrite <-app_assoc.
    + intros i m Hi.
      destruct (decide (i < length post)%nat) as [Hlt|Hge].
      * rewrite lookup_app_l in Hi by done.
        rewrite take_app_le by lia. by apply Hpost.
      * rewrite lookup_app_r in Hi by lia.
        apply list_lookup_singleton_Some in Hi as [Hi ->].
        assert (i = length post) as -> by lia.
        rewrite take_app_length. by rewrite <-Hsplit.
Qed.

(** C4, as the code has it.  For a key with at least one node, all of them
    satisfying the table's check constraint, and a final state that is not
    deleted, [materialize_section] leaves a row that points to the last node
    that moved the fold's pointer: a node that reset the baseline or one that
    appended to it.  The row carries that node's effective date, the composed
    text of the final state and the clock reading. *)
Theorem materialize_points_to_last_mover
    (now : Z) (f sec : string) (s : Session) :
  let nodes := section_nodes f sec s in
  let rs := collect_restatements s nodes in
  let state_after (l : list ClauseNode.t) := foldl (supersede rs) initial_state l in
  nodes ≠ [] →
  (∀ n, n ∈ clause_nodes s → ck_change_action n) →
  is_deleted (materialize_fold s nodes) = false →
  ∃ pre n post row,
    nodes = (pre ++ n :: post)%list
    ∧ moves_pointer rs (state_after pre) n = true
    ∧ (∀ i m, post !! i = Some m →
              moves_pointer rs (state_after (pre ++ n :: take i post)%list) m = false)
    ∧ family_section_current (materialize_section now f sec s).2 !! (f, sec)
      = Some row
    ∧ FamilySectionCurrent.current_node_id row = Some (ClauseNode.node_id n)
    ∧ FamilySectionCurrent.current_effective_ts row = ClauseNode.effective_ts n
    ∧ FamilySectionCurrent.composed_text row = compose (materialize_fold s nodes)
    ∧ FamilySectionCurrent.updated_at row = Some now.
Proof.
  intros nodes rs state_after Hne Hck Hdel.
  destruct (last_mover rs nodes Hne) as (pre & n & post & Hsplit & Hn & Hpost & Hid & Hts).
  { intros n Hn. apply Hck.
    apply order_by_elem_of in Hn. by apply list_elem_of_filter in Hn as [_ ?]. }
  { done. }
  change (foldl (supersede rs) initial_state nodes)
    with (materialize_fold s nodes) in Hid, Hts.
  rewrite materialize_section_snd. simpl. fold nodes.
  assert (∃ row, (upsert_current now f sec (materialize_fold s nodes)
                    (family_section_current s)).2 !! (f, sec) = Some row
                 ∧ FamilySectionCurrent.current_node_id row
                   = Some (ClauseNode.node_id n)
                 ∧ FamilySectionCurrent.current_effective_ts row
                   = ClauseNode.effective_ts n
                 ∧ FamilySectionCurrent.composed_text row
                   = compose (materialize_fold s nodes)
                 ∧ FamilySectionCurrent.updated_at row = Some now)
    as (row & Hrow).
  { rewrite upsert_current_lookup. unfold materialize_outcome.
    rewrite Hdel, Hid.
    destruct (family_section_current s !! (f, sec));
      [|destruct (compose (materialize_fold s nodes))];
      eexists; by repeat split. }
  destruct nodes as [|n0 nodes'] eqn:Hnodes; [done|]. rewrite <-Hnodes in *.
  exists pre, n, post, row. by repeat split; try apply Hrow.
Qed.

Lemma materialize_points_to_last_mover_witness :
  let s := Examples.replaced_then_appended in
  let nodes := section_nodes "F" "4" s in
  let rs := collect_restatements s nodes in
  let state_after (l : list ClauseNode.t) := foldl (supersede rs) initial_state l in
  ∃ pre n post row,
    nodes = (pre ++ n :: post)%list
    ∧ moves_pointer rs (state_after pre) n = true
    ∧ (∀ i m, post !! i = Some m →
              moves_pointer rs (state_after (pre ++ n :: take i post)%list) m = false)
    ∧ family_section_current (materialize_section 100 "F" "4" s).2 !! ("F", "4")
      = Some row
    ∧ FamilySectionCurrent.current_node_id row = Some (ClauseNode.node_id n)
    ∧ FamilySectionCurrent.current_effective_ts row = ClauseNode.effective_ts n
    ∧ FamilySectionCurrent.composed_text row = compose (materialize_fold s nodes)
    ∧ FamilySectionCurrent.updated_at row = Some 100.
Proof.
  apply (materialize_points_to_last_mover 100 "F" "4" Examples.replaced_then_appended).
  - vm_compute. discriminate.
  - intros n Hn. unfold ck_change_action.
    apply elem_of_cons in Hn as [->|Hn];
      [|apply list_elem_of_singleton in Hn as ->]; vm_compute.
    + apply list_elem_of_further, list_elem_of_here.
    + do 2 apply list_elem_of_further. apply list_elem_of_here.
  - reflexivity.
Defined.

(** C4, as stated, fails: after a [REPLACE] and a later [APPEND] the
    baseline text is the one the first node established, and the row points
    to the appending node. *)
Lemma appended_key_points_to_appender :
  let s := Examples.replaced_then_appended in
  let row := family_section_current (materialize_section 100 "F" "4" s).2
             !! ("F", "4") in
  SpecFold.base_text (SpecFold.run s "F" "4") = Some "base"
  ∧ SpecFold.base_node (SpecFold.run s "F" "4") = Some "n1"
  ∧ FamilySectionCurrent.current_node_id <$> row = Some (Some "n2")
  ∧ FamilySectionCurrent.current_node_id <$> row
    ≠ Some (SpecFold.base_node (SpecFold.run s "F" "4")).
Proof. repeat split; try reflexivity. vm_compute. discriminate. Qed.

(** ** Document versions *)

Lemma ts_leb_total a b : ts_leb a b = true ∨ ts_leb b a = true.
Proof. destruct a, b; simpl; auto. destruct (Z.leb_spec z z0); [auto|right; lia]. Qed.

Lemma ts_created_leb_total e1 c1 e2 c2 :
  ts_created_leb e1 c1 e2 c2 = true ∨ ts_created_leb e2 c2 e1 c1 = true.
Proof.
  unfold ts_created_leb, ts_eqb.
  destruct (ts_leb e1 e2) eqn:E1, (ts_leb e2 e1) eqn:E2; simpl; auto.
  - destruct (Z.leb_spec c1 c2); [auto|right; lia].
  - destruct (ts_leb_total e1 e2); congruence.
Qed.

Lemma doc_leb_total d e : doc_leb d e = true ∨ doc_leb e d = true.
Proof. apply ts_created_leb_total. Qed.

Lemma node_leb_total n m : node_leb n m = true ∨ node_leb m n = true.
Proof. apply ts_created_leb_total. Qed.

Lemma node_ts_leb_total n m : node_ts_leb n m = true ∨ node_ts_leb m n = true.
Proof. apply ts_leb_total. Qed.

Section order_by_fmap.
Context {A : Type} (leb : A → A → bool) (g : A → A).
Hypothesis g_keeps_order : ∀ x y, leb (g x) (g y) = leb x y.

Lemma insert_by_fmap x l :
  insert_by leb (g x) (g <$> l) = g <$> insert_by leb x l.
Proof.
  induction l as [|y l IH]; simpl; [done|].
  rewrite g_keeps_order. destruct (leb x y); simpl; [done|].
  f_equal. apply IH.
Qed.

Lemma order_by_fmap l : order_by leb (g <$> l) = g <$> order_by leb l.
Proof.
  induction l as [|x l IH]; [done|].
  rewrite fmap_cons. cbn [order_by]. by rewrite IH, insert_by_fmap.
Qed.
End order_by_fmap.

Lemma filter_fmap_same {A} (P : A → Prop) `{∀ x, Decision (P x)}
    (g : A → A) (l : list A) :
  (∀ x, P (g x) ↔ P x) → filter P (g <$> l) = g <$> filter P l.
Proof.
  intros Hg. induction l as [|x l IH]; [done|].
  rewrite fmap_cons, !filter_cons.
  destruct (decide (P x)) as [Hx|Hx].
  - rewrite decide_True by by apply Hg. by rewrite fmap_cons, IH.
  - rewrite decide_False by by rewrite Hg. done.
Qed.

(** [func.max] returns the greatest non-null value, if there is one. *)
Lemma sql_max_spec (l : list (option Z)) :
  match sql_max l with
  | Some m => Some m ∈ l ∧ ∀ v, Some v ∈ l → v ≤ m
  | None => ∀ v, Some v ∉ l
  end.
Proof.
  unfold sql_max. induction l as [|x l IH] using rev_ind; simpl.
  - intros v Hv. by apply elem_of_nil in Hv.
  - rewrite foldl_snoc.
    destruct (foldl _ None l) as [m|], x as [v|].
    + destruct IH as [Hm Hle]. split.
      * apply elem_of_app.
        destruct (Z.max_spec m v) as [[_ ->]|[_ ->]];
          [right; left|by left].
      * intros w [Hw|Hw%list_elem_of_singleton]%elem_of_app.
        -- specialize (Hle w Hw). lia.
        -- simplify_eq. lia.
    + destruct IH as [Hm Hle]. split; [apply elem_of_app; by left|].
      intros w [Hw|Hw%list_elem_of_singleton]%elem_of_app; [by apply Hle|done].
    + split; [apply elem_of_app; right; left|].
      intros w [Hw|Hw%list_elem_of_singleton]%elem_of_app.
      * by apply IH in Hw.
      * simplify_eq. lia.
    + intros w [Hw|Hw%list_elem_of_singleton]%elem_of_app; [by apply IH in Hw|done].
Qed.

Lemma list_find_cons {A} (P : A → Prop) `{∀ x, Decision (P x)} (x : A) (l : list A) :
  list_find P (x :: l)
  = if decide (P x) then Some (0%nat, x) else prod_map S id <$> list_find P l.
Proof. done. Qed.

Lemma assign_ranks_snd doc_id family_docs :
  ∀ r tl docs,
    NoDup (ContractDocument.doc_id <$> family_docs) →
    (assign_ranks doc_id r family_docs tl docs).2 = ranked_at r family_docs <$> docs.
Proof.
  induction family_docs as [|fd L IH]; intros r tl docs Hnd; simpl.
  - rewrite <-(list_fmap_id docs) at 1. by apply list_fmap_ext.
  - apply NoDup_cons in Hnd as [Hfd Hnd].
    rewrite IH by done. unfold update_document.
    rewrite <-list_fmap_compose. apply list_fmap_ext. intros _ d _. simpl.
    unfold ranked_at. rewrite list_find_cons.
    case_bool_decide as Hd.
    + rewrite decide_True by done. simpl.
      replace (list_find _ L) with (@None (nat * ContractDocument.t)).
      * f_equal. lia.
      * symmetry. apply list_find_None, Forall_forall. intros x Hx Hxd.
        apply Hfd. rewrite <-Hd, <-Hxd. apply list_elem_of_fmap. eauto.
    + rewrite decide_False by done.
      destruct (list_find _ L) as [[i x]|]; simpl; [|done].
      f_equal. lia.
Qed.

Lemma assign_ranks_fst doc_id family_docs :
  ∀ r tl docs,
    NoDup (ContractDocument.doc_id <$> family_docs) →
    (assign_ranks doc_id r family_docs tl docs).1
    = match list_find (λ fd, ContractDocument.doc_id fd = doc_id) family_docs with
      | Some (i, _) => r + Z.of_nat i
      | None => tl
      end.
Proof.
  induction family_docs as [|fd L IH]; intros r tl docs Hnd; [done|].
  rewrite fmap_cons in Hnd. apply NoDup_cons in Hnd as [Hfd Hnd].
  cbn [assign_ranks]. rewrite IH by done. rewrite list_find_cons.
  case_bool_decide as Hd.
  - rewrite decide_True by done. simpl.
    replace (list_find _ L) with (@None (nat * ContractDocument.t)); [lia|].
    symmetry. apply list_find_None, Forall_forall. intros x Hx Hxd.
    apply Hfd. rewrite Hd, <-Hxd. apply list_elem_of_fmap. eauto.
  - rewrite decide_False by done.
    destruct (list_find _ L) as [[i x]|]; simpl; [lia|done].
Qed.

Lemma NoDup_fmap_filter {A B} (f : A → B) (P : A → Prop) `{∀ x, Decision (P x)}
    (l : list A) :
  NoDup (f <$> l) → NoDup (f <$> filter P l).
Proof.
  induction l as [|x l IH]; [done|].
  rewrite fmap_cons, filter_cons. intros [Hx Hl]%NoDup_cons.
  destruct (decide (P x)); [|by apply IH].
  rewrite fmap_cons. apply NoDup_cons. split; [|by apply IH].
  intros (y & Hy & Hin)%list_elem_of_fmap. apply Hx.
  apply list_elem_of_fmap. exists y. split; [done|].
  by apply list_elem_of_filter in Hin as [_ ?].
Qed.

Lemma update_document_ids doc_id g docs :
  (∀ d, ContractDocument.doc_id (g d) = ContractDocument.doc_id d) →
  ContractDocument.doc_id <$> update_document doc_id g docs
  = ContractDocument.doc_id <$> docs.
Proof.
  intros Hg. unfold update_document. rewrite <-list_fmap_compose.
  apply list_fmap_ext. intros _ d _. simpl. by case_bool_decide.
Qed.

Lemma update_document_absent s doc_id g :
  get_document s doc_id = None →
  update_document doc_id g (documents s) = documents s.
Proof.
  unfold get_document, update_document. intros Hnone.
  rewrite <-(list_fmap_id (documents s)) at 2.
  apply list_fmap_ext. intros _ d Hd%list_elem_of_lookup_2. simpl.
  apply list_elem_of_In in Hd.
  by rewrite (find_none _ _ Hnone d Hd).
Qed.

Lemma ranked_at_keeps r L d :
  ContractDocument.doc_id (ranked_at r L d) = ContractDocument.doc_id d
  ∧ ContractDocument.family_id (ranked_at r L d) = ContractDocument.family_id d
  ∧ ContractDocument.doc_version_ingest (ranked_at r L d)
    = ContractDocument.doc_version_ingest d
  ∧ ContractDocument.effective_ts (ranked_at r L d) = ContractDocument.effective_ts d
  ∧ ContractDocument.created_at (ranked_at r L d) = ContractDocument.created_at d.
Proof. unfold ranked_at. by destruct (list_find _ L) as [[i x]|]. Qed.

(** In a list without duplicate ids, a document is found at its own
    position. *)
Lemma list_find_own_position (L : list ContractDocument.t) i fd :
  NoDup (ContractDocument.doc_id <$> L) →
  L !! i = Some fd →
  list_find (λ x, ContractDocument.doc_id x = ContractDocument.doc_id fd) L
  = Some (i, fd).
Proof.
  intros Hnd Hi. apply list_find_Some. split; [done|]. split; [done|].
  intros j y Hj Hlt Hy.
  assert (j = i); [|lia].
  eapply (NoDup_lookup _ _ _ (ContractDocument.doc_id fd) Hnd);
    rewrite list_lookup_fmap.
  - by rewrite Hj, <-Hy.
  - by rewrite Hi.
Qed.

Lemma assign_doc_versions_eq doc_id fid ets s :
  NoDup (ContractDocument.doc_id <$> documents s) →
  let v := max_ingest_of fid (documents s) + 1 in
  let docs1 := update_document doc_id (with_assignment fid v ets) (documents s) in
  let L := family_docs_of fid docs1 in
  NoDup (ContractDocument.doc_id <$> L)
  ∧ assign_doc_versions doc_id fid ets s
    = ((v, match list_find (λ fd, ContractDocument.doc_id fd = doc_id) L with
           | Some (i, _) => 1 + Z.of_nat i
           | None => 0
           end),
       set_documents (ranked_at 1 L <$> docs1) s).
Proof.
  intros Hnd v docs1 L.
  assert (NoDup (ContractDocument.doc_id <$> L)) as HndL.
  { unfold L, family_docs_of. rewrite order_by_Permutation.
    apply NoDup_fmap_filter. unfold docs1.
    by rewrite update_document_ids. }
  split; [done|].
  unfold assign_doc_versions. fold v.
  assert (match get_document s doc_id with
          | Some _ => update_document doc_id (with_assignment fid v ets) (documents s)
          | None => documents s
          end = docs1) as ->.
  { destruct (get_document s doc_id) eqn:Hget; [done|].
    unfold docs1. by rewrite update_document_absent. }
  fold L.
  pose proof (assign_ranks_snd doc_id L 1 0 docs1 HndL) as Hsnd.
  pose proof (assign_ranks_fst doc_id L 1 0 docs1 HndL) as Hfst.
  destruct (assign_ranks doc_id 1 L 0 docs1) as [tl docs2].
  simpl in Hsnd, Hfst. by rewrite Hsnd, Hfst.
Qed.

(** C6.  [assign_doc_versions] returns as ingestion version one more than
    the greatest ingestion version stored in the family (1 when there is
    none), leaves the ingestion version of every other document as it was,
    stamps the document itself, and leaves every document of the family with
    a timeline version equal to its 1-based position in the family sorted by
    effective date, nulls last, then creation time.  Ingesting a document
    effective 2024-06-01 and then one effective 2024-01-01 gives ingestion
    versions 1 and 2 and timeline versions 2 and 1. *)
Theorem assign_doc_versions_ranks
    (doc_id fid : string) (ets : option Z) (s : Session) :
  NoDup (ContractDocument.doc_id <$> documents s) →
  let r := assign_doc_versions doc_id fid ets s in
  let v_ingest := r.1.1 in
  let v_timeline := r.1.2 in
  let s' := r.2 in
  (∀ d v, d ∈ documents s → in_family fid d →
          ContractDocument.doc_version_ingest d = Some v → v < v_ingest)
  ∧ ((∃ d, d ∈ documents s ∧ in_family fid d
           ∧ ContractDocument.doc_version_ingest d = Some (v_ingest - 1))
     ∨ ((∀ d, d ∈ documents s → in_family fid d →
              ContractDocument.doc_version_ingest d = None)
        ∧ v_ingest = 1))
  ∧ Forall2 (λ d d',
               ContractDocument.doc_id d' = ContractDocument.doc_id d
               ∧ (ContractDocument.doc_id d ≠ doc_id →
                  ContractDocument.doc_version_ingest d'
                  = ContractDocument.doc_version_ingest d))
            (documents s) (documents s')
  ∧ (∀ d, d ∈ documents s' → ContractDocument.doc_id d = doc_id →
          ContractDocument.doc_version_ingest d = Some v_ingest
          ∧ ContractDocument.doc_version_timeline d = Some v_timeline
          ∧ ContractDocument.family_id d = Some fid
          ∧ ContractDocument.effective_ts d = ets)
  ∧ (let ranked := family_docs_of fid (documents s') in
     Sorted (λ a b, doc_leb a b = true) ranked
     ∧ ranked ≡ₚ filter (in_family fid) (documents s')
     ∧ ∀ i d, ranked !! i = Some d →
              ContractDocument.doc_version_timeline d = Some (Z.of_nat i + 1))
  ∧ (assign_doc_versions "late" "F" (Some 20240601) Examples.arrival0).1 = (1, 1)
  ∧ (assign_doc_versions "early" "F" (Some 20240101) Examples.arrival2).1 = (2, 1)
  ∧ (λ d, (ContractDocument.doc_id d, ContractDocument.doc_version_ingest d,
           ContractDocument.doc_version_timeline d))
      <$> documents (assign_doc_versions "early" "F" (Some 20240101)
                                         Examples.arrival2).2
    = [("late", Some 1, Some 2); ("early", Some 2, Some 1)].
Proof.
  intros Hnd r v_ingest v_timeline s'.
  destruct (assign_doc_versions_eq doc_id fid ets s Hnd) as [HndL Heq].
  set (v := max_ingest_of fid (documents s) + 1) in *.
  set (docs1 := update_document doc_id (with_assignment fid v ets) (documents s)) in *.
  set (L := family_docs_of fid docs1) in *.
  subst v_ingest v_timeline s' r. rewrite Heq. simpl.
  pose proof (sql_max_spec (ContractDocument.doc_version_ingest
                              <$> filter (in_family fid) (documents s))) as Hmax.
  assert (v = default 0 (sql_max (ContractDocument.doc_version_ingest
                                   <$> filter (in_family fid) (documents s))) + 1)
    as Hv by done.
  split_and!.
  - intros d w Hd Hfam Hw.
    destruct (sql_max _) as [m|]; simpl in Hv.
    + destruct Hmax as [_ Hle]. assert (w ≤ m); [|lia].
      apply Hle, list_elem_of_fmap. exists d. split; [done|].
      by apply list_elem_of_filter.
    + exfalso. apply (Hmax w), list_elem_of_fmap. exists d. split; [done|].
      by apply list_elem_of_filter.
  - destruct (sql_max _) as [m|]; simpl in Hv.
    + left. destruct Hmax as [(d & Hd & Hin)%list_elem_of_fmap _].
      apply list_elem_of_filter in Hin as [Hfam Hin].
      exists d. split_and!; [done..|]. rewrite <-Hd. f_equal. lia.
    + right. split; [|lia]. intros d Hd Hfam.
      destruct (ContractDocument.doc_version_ingest d) as [w|] eqn:Hw; [|done].
      exfalso. apply (Hmax w), list_elem_of_fmap. exists d. split; [done|].
      by apply list_elem_of_filter.
  - unfold docs1, update_document. apply Forall2_fmap_r, Forall2_fmap_r.
    apply Forall_Forall2_diag, Forall_forall. intros d _.
    unfold Basics.compose.
    destruct (ranked_at_keeps 1 L
                (if bool_decide (ContractDocument.doc_id d = doc_id)
                 then with_assignment fid v ets d else d))
      as (Hid & _ & Hing & _).
    rewrite Hid, Hing. by case_bool_decide.
  - intros d (d1 & -> & Hd1)%list_elem_of_fmap Hid.
    destruct (ranked_at_keeps 1 L d1) as (Hid1 & Hfam1 & Hing1 & Hets1 & _).
    rewrite Hid1 in Hid. rewrite Hfam1, Hing1, Hets1.
    unfold docs1, update_document in Hd1.
    apply list_elem_of_fmap in Hd1 as (d0 & Hd0 & Hin0).
    assert (ContractDocument.doc_id d0 = doc_id) as Hid0.
    { subst d1. by case_bool_decide. }
    rewrite bool_decide_eq_true_2 in Hd0 by done.
    assert (d1 ∈ L) as HinL.
    { unfold L, family_docs_of. apply order_by_elem_of, list_elem_of_filter.
      split; [by subst d1|].
      unfold docs1, update_document. apply list_elem_of_fmap. exists d0.
      by rewrite bool_decide_eq_true_2. }
    apply list_elem_of_lookup in HinL as [i Hi].
    pose proof (list_find_own_position L i d1 HndL Hi) as Hfind.
    unfold ranked_at. rewrite Hfind. rewrite Hid in Hfind. rewrite Hfind.
    subst d1. simpl. by split_and!.
  - apply order_by_Sorted, doc_leb_total.
  - apply order_by_Permutation.
  - assert (family_docs_of fid (ranked_at 1 L <$> docs1) = ranked_at 1 L <$> L)
      as ->.
    { unfold family_docs_of at 1. rewrite filter_fmap_same.
      - apply order_by_fmap. intros x y. unfold doc_leb.
        destruct (ranked_at_keeps 1 L x) as (_ & _ & _ & -> & ->).
        by destruct (ranked_at_keeps 1 L y) as (_ & _ & _ & -> & ->).
      - intros x. unfold in_family.
        by destruct (ranked_at_keeps 1 L x) as (_ & -> & _). }
    intros i d Hi. rewrite list_lookup_fmap in Hi.
    destruct (L !! i) as [fd|] eqn:HLi; [|done]. simpl in Hi.
    injection Hi as <-. unfold ranked_at.
    rewrite (list_find_own_position L i fd HndL HLi). simpl.
    f_equal. lia.
  - reflexivity.
  - reflexivity.
  - reflexivity.
Qed.

Lemma assign_doc_versions_ranks_witness :
  let r := assign_doc_versions "early" "F" (Some 20240101) Examples.arrival2 in
  let d := ContractDocument.mk "early" "he" (Some "F") None (Some 2) (Some 1)
                               (Some 20240101) 2 in
  ContractDocument.doc_version_ingest d = Some r.1.1
  ∧ ContractDocument.doc_version_timeline d = Some r.1.2
  ∧ ContractDocument.family_id d = Some "F"
  ∧ ContractDocument.effective_ts d = Some 20240101.
Proof.
  intros r d.
  refine (proj1 (proj2 (proj2 (proj2
            (assign_doc_versions_ranks "early" "F" (Some 20240101)
               Examples.arrival2 _)))) d _ _).
  - exact (bool_decide_unpack
             (NoDup (ContractDocument.doc_id <$> documents Examples.arrival2)) I).
  - vm_compute. apply list_elem_of_further, list_elem_of_here.
  - reflexivity.
Defined.

(** ** Row order *)

Lemma semantic_id_of_eq session family_id section_query :
  _resolve_section_id session family_id section_query
  = if section_exists session family_id section_query then section_query
    else if section_exists session family_id (semantic_id_of section_query)
         then semantic_id_of section_query
         else match fuzzy_candidates session family_id section_query with
              | c :: _ => c
              | [] => section_query
              end.
Proof. done. Qed.



Lemma elem_of_distinct (x : string) (l : list string) : x ∈ distinct l ↔ x ∈ l.
Proof. unfold distinct. by rewrite order_by_elem_of, elem_of_remove_dups. Qed.






Lemma ts_leb_trans a b c : ts_leb a b = true → ts_leb b c = true → ts_leb a c = true.
Proof. destruct a, b, c; simpl; try done. lia. Qed.

Lemma ts_leb_antisym a b : ts_leb a b = true → ts_leb b a = true → a = b.
Proof. destruct a, b; simpl; try done. intros. f_equal. lia. Qed.

Lemma NoDup_fmap_inj_on {A B} (f : A → B) (l : list A) x y :
  NoDup (f <$> l) → x ∈ l → y ∈ l → f x = f y → x = y.
Proof.
  intros Hnd [i Hi]%list_elem_of_lookup [j Hj]%list_elem_of_lookup Hf.
  assert (i = j) as ->; [|congruence].
  eapply (NoDup_lookup _ _ _ (f x) Hnd); rewrite list_lookup_fmap.
  - by rewrite Hi.
  - by rewrite Hj, Hf.
Qed.







(** * Further properties *)

(** ** Reading back what was materialized *)

Lemma get_family_Some session k fam :
  get_family session k = Some fam →
  fam ∈ families session ∧ Family.family_id fam = k.
Proof.
  unfold get_family. intros H. apply find_some in H as [Hin Hk].
  split; [by apply list_elem_of_In|by apply bool_decide_eq_true in Hk].
Qed.

Lemma section_exists_nodes session f sec :
  section_exists session f sec = true ↔ section_nodes f sec session ≠ [].
Proof.
  unfold section_exists, section_nodes.
  rewrite bool_decide_eq_true. by rewrite order_by_nil_iff.
Qed.

Lemma resolve_section_id_exact session f sec :
  section_nodes f sec session ≠ [] → _resolve_section_id session f sec = sec.
Proof.
  intros Hne. unfold _resolve_section_id.
  by rewrite (proj2 (section_exists_nodes session f sec) Hne).
Qed.

Lemma upsert_current_lookup_ne (now : Z) (f sec : string) (st : FoldState)
    (cur : gmap (string * string) FamilySectionCurrent.t) (key : string * string) :
  key ≠ (f, sec) → (upsert_current now f sec st cur).2 !! key = cur !! key.
Proof.
  intros Hne. unfold upsert_current.
  destruct (materialize_outcome st) as [ct nid].
  destruct (cur !! (f, sec)) as [row|]; simpl.
  - by rewrite lookup_insert_ne.
  - destruct ct, nid; simpl; by rewrite ?lookup_insert_ne.
Qed.

Lemma materialize_section_lookup_ne now f sec s key :
  key ≠ (f, sec) →
  family_section_current (materialize_section now f sec s).2 !! key
  = family_section_current s !! key.
Proof.
  intros Hne. rewrite materialize_section_snd. simpl.
  destruct (section_nodes f sec s).
  - by rewrite lookup_delete_ne.
  - by apply upsert_current_lookup_ne.
Qed.

Lemma materialize_section_lookup now f sec s :
  family_section_current (materialize_section now f sec s).2 !! (f, sec)
  = match section_nodes f sec s with
    | [] => None
    | _ :: _ =>
        (upsert_current now f sec (materialize_fold s (section_nodes f sec s))
                        (family_section_current s)).2 !! (f, sec)
    end.
Proof.
  rewrite materialize_section_snd. simpl.
  destruct (section_nodes f sec s); [apply lookup_delete_eq|done].
Qed.

Lemma materialize_section_tables (now : Z) (f sec : string) (s : Session) :
  let s' := (materialize_section now f sec s).2 in
  families s' = families s
  ∧ documents s' = documents s
  ∧ clause_nodes s' = clause_nodes s
  ∧ delete (f, sec) (family_section_current s')
    = delete (f, sec) (family_section_current s).
Proof.
  intros s'. subst s'. rewrite materialize_section_snd. simpl.
  split_and!; try done. apply map_eq. intros key.
  destruct (decide (key = (f, sec))) as [->|Hne].
  - by rewrite !lookup_delete_eq.
  - rewrite !lookup_delete_ne by done.
    destruct (section_nodes f sec s).
    + by rewrite lookup_delete_ne.
    + by apply upsert_current_lookup_ne.
Qed.

(** X1.  [materialize_section] writes nothing but the row of its key: the
    family, document and node tables are as before, and so is every other
    row of the materialized table. *)
Theorem materialize_section_frame (now : Z) (f sec : string) (s : Session) :
  let s' := (materialize_section now f sec s).2 in
  families s' = families s
  ∧ documents s' = documents s
  ∧ clause_nodes s' = clause_nodes s
  ∧ delete (f, sec) (family_section_current s')
    = delete (f, sec) (family_section_current s).
Proof. apply materialize_section_tables. Qed.

(** X2.  Reading back: for a stored family and a key with at least one node,
    [query_current] after [materialize_section] reports exactly what the
    fold computed (composed text, node pointer, effective date and the clock
    reading), and reports that no current state was found when the key had
    no row and the fold left both the text and the pointer null. *)
Theorem query_current_after_materialize
    (sha256 : string → string) (now : Z) (f sec : string) (s : Session)
    (party_a party_b : option string) (fam : Family.t) :
  f ≠ "" →
  get_family s f = Some fam →
  section_nodes f sec s ≠ [] →
  let st := materialize_fold s (section_nodes f sec s) in
  query_current sha256 (materialize_section now f sec s).2 sec
                (Some f) party_a party_b
  = match family_section_current s !! (f, sec), materialize_outcome st with
    | None, (None, None) =>
        mkResult "CURRENT" f sec None (Some (NoCurrentState sec))
    | _, (composed_text, current_node_id) =>
        mkResult "CURRENT" f sec
          (Some (CurrentData composed_text current_node_id
                             (base_effective_ts st) (Some now)))
          None
    end.
Proof.
  intros Hf Hfam Hne st. unfold query_current, _resolve_family. simpl.
  rewrite bool_decide_eq_false_2 by done. simpl.
  change (get_family (materialize_section now f sec s).2 f)
    with (List.find (λ x, bool_decide (Family.family_id x = f))
            (families (materialize_section now f sec s).2)).
  destruct (materialize_section_tables now f sec s) as (-> & _ & Hnodes & _).
  fold (get_family s f). rewrite Hfam.
  apply get_family_Some in Hfam as [_ ->].
  rewrite resolve_section_id_exact
    by (unfold section_nodes in *; by rewrite Hnodes).
  rewrite materialize_section_lookup.
  destruct (section_nodes f sec s) as [|n nodes] eqn:Hsn; [done|].
  rewrite upsert_current_lookup. fold st.
  destruct (materialize_outcome st) as [ct nid].
  destruct (family_section_current s !! (f, sec)) as [row|]; [done|].
  by destruct ct, nid.
Qed.

Lemma query_current_after_materialize_witness :
  query_current tagged_digest
    (materialize_section 100 "F" "5.3" Examples.liability).2 "5.3"
    (Some "F") None None
  = mkResult "CURRENT" "F" "5.3"
      (Some (CurrentData (Some "cap 1,000,000") (Some "n2") (Some 20240601)
                         (Some 100)))
      None.
Proof.
  refine (query_current_after_materialize tagged_digest 100 "F" "5.3"
            Examples.liability None None Examples.acme_widget _ eq_refl _).
  - discriminate.
  - vm_compute. discriminate.
Defined.

(** ** Batch materialization *)

Lemma same_content_refl_upsert (now1 now2 : Z) (f sec : string) (st : FoldState)
    (m1 m2 : gmap (string * string) FamilySectionCurrent.t) :
  m1 !! (f, sec) = m2 !! (f, sec) →
  same_content ((upsert_current now1 f sec st m1).2 !! (f, sec))
               ((upsert_current now2 f sec st m2).2 !! (f, sec)).
Proof.
  intros Heq. rewrite !upsert_current_lookup, Heq.
  destruct (materialize_outcome st) as [ct nid].
  destruct (m2 !! (f, sec)) as [row|]; simpl; [done|].
  destruct ct, nid; simpl; done.
Qed.

Lemma same_content_again_upsert (now1 now2 : Z) (f sec : string) (st : FoldState)
    (m m0 : gmap (string * string) FamilySectionCurrent.t) :
  same_content (m !! (f, sec)) ((upsert_current now1 f sec st m0).2 !! (f, sec)) →
  same_content ((upsert_current now2 f sec st m).2 !! (f, sec))
               ((upsert_current now1 f sec st m0).2 !! (f, sec)).
Proof.
  rewrite !upsert_current_lookup.
  destruct (materialize_outcome st) as [ct nid].
  destruct (m0 !! (f, sec)) as [row0|], (m !! (f, sec)) as [row|]; simpl;
    try destruct ct; try destruct nid; simpl; try done;
    by intros (-> & -> & _).
Qed.

(** Materializing a key in a session with the same facts, whose row of the
    key is the original one or already the materialized one, gives the
    materialized row again. *)
Lemma materialize_section_same_content now now0 f sid s t :
  clause_nodes t = clause_nodes s →
  documents t = documents s →
  family_section_current t !! (f, sid) = family_section_current s !! (f, sid)
  ∨ same_content (family_section_current t !! (f, sid))
      (family_section_current (materialize_section now0 f sid s).2 !! (f, sid)) →
  same_content
    (family_section_current (materialize_section now f sid t).2 !! (f, sid))
    (family_section_current (materialize_section now0 f sid s).2 !! (f, sid)).
Proof.
  intros Hn Hd Hrow. rewrite !materialize_section_lookup in *.
  assert (section_nodes f sid t = section_nodes f sid s) as Hsn
    by (unfold section_nodes; by rewrite Hn).
  rewrite Hsn.
  assert (∀ l, materialize_fold t l = materialize_fold s l) as Hfold.
  { intros l. unfold materialize_fold, collect_restatements, get_document.
    by rewrite Hd. }
  rewrite Hfold.
  destruct (section_nodes f sid s) as [|n l]; [done|].
  destruct Hrow as [Heq|Hsame].
  - by apply same_content_refl_upsert.
  - by apply same_content_again_upsert.
Qed.

Lemma materialize_loop_frame clock f :
  ∀ sids call count s,
    let r := materialize_loop clock f sids call count s in
    r.1 = count + Z.of_nat (length sids)
    ∧ families r.2 = families s
    ∧ documents r.2 = documents s
    ∧ clause_nodes r.2 = clause_nodes s
    ∧ ∀ key, key.1 ≠ f ∨ key.2 ∉ sids →
             family_section_current r.2 !! key = family_section_current s !! key.
Proof.
  induction sids as [|sid sids IH]; intros call count s; simpl.
  - split_and!; try done. lia.
  - destruct (IH (S call) (count + 1)
                 (materialize_section (clock call) f sid s).2)
      as (Hc & Hf & Hd & Hn & Hrows).
    destruct (materialize_section_tables (clock call) f sid s)
      as (Hf' & Hd' & Hn' & _).
    split_and!; try congruence; [lia|].
    intros key Hkey. rewrite Hrows.
    + apply materialize_section_lookup_ne. intros ->. simpl in Hkey.
      destruct Hkey as [?|Hnin]; [done|]. apply Hnin. left.
    + destruct Hkey as [?|Hnin]; [by left|right].
      intros Hin. apply Hnin. by right.
Qed.

Lemma materialize_loop_keeps clock f now0 sid s :
  ∀ sids call count t,
    clause_nodes t = clause_nodes s →
    documents t = documents s →
    same_content (family_section_current t !! (f, sid))
      (family_section_current (materialize_section now0 f sid s).2 !! (f, sid)) →
    same_content
      (family_section_current (materialize_loop clock f sids call count t).2
       !! (f, sid))
      (family_section_current (materialize_section now0 f sid s).2 !! (f, sid)).
Proof.
  induction sids as [|h sids IH]; intros call count t Hn Hd Hrow; simpl; [done|].
  destruct (materialize_section_tables (clock call) f h t) as (_ & Hd' & Hn' & _).
  apply IH; [congruence..|].
  destruct (decide (h = sid)) as [->|Hne].
  - apply materialize_section_same_content; auto.
  - rewrite materialize_section_lookup_ne by congruence. done.
Qed.

Lemma materialize_loop_rows clock f now0 sid s :
  ∀ sids call count t,
    sid ∈ sids →
    clause_nodes t = clause_nodes s →
    documents t = documents s →
    family_section_current t !! (f, sid) = family_section_current s !! (f, sid) →
    same_content
      (family_section_current (materialize_loop clock f sids call count t).2
       !! (f, sid))
      (family_section_current (materialize_section now0 f sid s).2 !! (f, sid)).
Proof.
  induction sids as [|h sids IH]; intros call count t Hin Hn Hd Hrow; simpl.
  { by apply elem_of_nil in Hin. }
  destruct (materialize_section_tables (clock call) f h t) as (_ & Hd' & Hn' & _).
  destruct (decide (h = sid)) as [->|Hne].
  - apply materialize_loop_keeps; [congruence..|].
    apply materialize_section_same_content; auto.
  - apply elem_of_cons in Hin as [->|Hin]; [done|].
    apply IH; [done|congruence..|].
    rewrite materialize_section_lookup_ne by congruence. done.
Qed.

(** X3.  [materialize_affected_sections] returns the number of listed
    sections, leaves the fact tables alone, gives every listed section the
    row that [materialize_section] alone would give it (up to the update
    timestamp, and whatever the other entries of the list are), and leaves
    every row outside the list as it was. *)
Theorem materialize_affected_sections_rows
    (clock : nat → Z) (now : Z) (f : string) (sids : list string) (s : Session) :
  let r := materialize_affected_sections clock f sids s in
  r.1 = Z.of_nat (length sids)
  ∧ families r.2 = families s
  ∧ documents r.2 = documents s
  ∧ clause_nodes r.2 = clause_nodes s
  ∧ Forall (λ sid,
              same_content
                (family_section_current r.2 !! (f, sid))
                (family_section_current (materialize_section now f sid s).2
                 !! (f, sid))) sids
  ∧ ∀ key, key.1 ≠ f ∨ key.2 ∉ sids →
           family_section_current r.2 !! key = family_section_current s !! key.
Proof.
  intros r. subst r. unfold materialize_affected_sections.
  destruct (materialize_loop_frame clock f sids 0%nat 0 s)
    as (Hc & Hf & Hd & Hn & Hrows).
  split_and!; try done.
  apply Forall_forall. intros sid Hin. by apply materialize_loop_rows.
Qed.

Lemma materialize_affected_sections_rows_witness :
  let r := materialize_affected_sections (λ i, 100 + Z.of_nat i) "F"
             ["5.3.2"; "5.3.1"; "5.3.2"] Examples.subsections in
  family_section_current r.2 !! ("F", "7")
  = family_section_current Examples.subsections !! ("F", "7").
Proof.
  refine (proj2 (proj2 (proj2 (proj2 (proj2
            (materialize_affected_sections_rows (λ i, 100 + Z.of_nat i) 0 "F"
               ["5.3.2"; "5.3.1"; "5.3.2"] Examples.subsections)))))
            ("F", "7") _).
  right. simpl. intros Hin.
  repeat (apply elem_of_cons in Hin as [Hin|Hin]; [discriminate|]).
  by apply elem_of_nil in Hin.
Defined.

Lemma NoDup_distinct (l : list string) : NoDup (distinct l).
Proof. unfold distinct. rewrite order_by_Permutation. apply NoDup_remove_dups. Qed.

Lemma elem_of_family_section_ids f sec s :
  sec ∈ family_section_ids f s ↔ section_nodes f sec s ≠ [].
Proof.
  unfold family_section_ids, section_nodes.
  rewrite elem_of_distinct, list_elem_of_fmap, order_by_nil_iff. split.
  - intros (n & -> & Hn) Hnil.
    apply list_elem_of_filter in Hn as [Hfam Hn].
    assert (n ∈ filter (for_key f (ClauseNode.canonical_section_id n))
                       (clause_nodes s)) as Hin
      by (by apply list_elem_of_filter).
    rewrite Hnil in Hin. by apply elem_of_nil in Hin.
  - intros Hne.
    destruct (filter (for_key f sec) (clause_nodes s)) as [|n l] eqn:Hfl; [done|].
    assert (n ∈ filter (for_key f sec) (clause_nodes s)) as Hin
      by (rewrite Hfl; left).
    apply list_elem_of_filter in Hin as [[Hfam Hsec] Hin].
    exists n. split; [done|]. by apply list_elem_of_filter.
Qed.

(** X4.  [materialize_family] returns the number of distinct section ids of
    the family's nodes, gives every section that has a node the row that
    [materialize_section] alone would give it (up to the update timestamp),
    and never removes a row: a row whose section has no node any more stays
    as it was. *)
Theorem materialize_family_rows
    (clock : nat → Z) (now : Z) (f : string) (s : Session) :
  let r := materialize_family clock f s in
  r.1 = Z.of_nat (length (family_section_ids f s))
  ∧ NoDup (family_section_ids f s)
  ∧ (∀ sec, section_nodes f sec s ≠ [] →
            same_content
              (family_section_current r.2 !! (f, sec))
              (family_section_current (materialize_section now f sec s).2
               !! (f, sec)))
  ∧ (∀ sec, section_nodes f sec s = [] →
            family_section_current r.2 !! (f, sec)
            = family_section_current s !! (f, sec))
  ∧ (∀ key, is_Some (family_section_current s !! key) →
            is_Some (family_section_current r.2 !! key)).
Proof.
  intros r. subst r. unfold materialize_family.
  destruct (materialize_loop_frame clock f (family_section_ids f s) 0%nat 0 s)
    as (Hc & Hf & Hd & Hn & Hrows).
  assert (∀ sec, section_nodes f sec s ≠ [] →
            same_content
              (family_section_current
                 (materialize_loop clock f (family_section_ids f s) 0 0 s).2
               !! (f, sec))
              (family_section_current (materialize_section now f sec s).2
               !! (f, sec))) as Hsame.
  { intros sec Hne. apply materialize_loop_rows; try done.
    by apply elem_of_family_section_ids. }
  split_and!; try done.
  - apply NoDup_distinct.
  - intros sec Hnil. apply Hrows. right. simpl.
    rewrite elem_of_family_section_ids. by intros ?.
  - intros [f' sec] Hsome.
    destruct (decide (f' = f)) as [->|Hne]; [|rewrite Hrows; [done|by left]].
    destruct (decide (section_nodes f sec s = [])) as [Hnil|Hnn].
    { rewrite Hrows; [done|]. right. simpl.
      rewrite elem_of_family_section_ids. by intros ?. }
    specialize (Hsame sec Hnn).
    rewrite materialize_section_lookup in Hsame.
    destruct (section_nodes f sec s) as [|n l] eqn:Hsn; [done|].
    rewrite upsert_current_lookup in Hsame.
    destruct Hsome as [row Hrow]. rewrite Hrow in Hsame.
    destruct (materialize_outcome _) as [ct nid].
    destruct (family_section_current
                (materialize_loop clock f (family_section_ids f s) 0 0 s).2
              !! (f, sec)); [by eauto|done].
Qed.

Lemma materialize_family_rows_witness :
  let s := Examples.stated_then_deleted in
  let r := materialize_family (λ i, 200 + Z.of_nat i) "F" s in
  is_Some (family_section_current r.2 !! ("F", "9")).
Proof.
  refine (proj2 (proj2 (proj2 (proj2
            (materialize_family_rows (λ i, 200 + Z.of_nat i) 0 "F"
               Examples.stated_then_deleted)))) ("F", "9") _).
  vm_compute. eauto.
Defined.

(** ** The supersession loops, step by step *)

Lemma collect_restatements_inv session nodes (acc : gset string) d :
  d ∈ foldl (λ acc node,
               match get_document session (ClauseNode.doc_id node) with
               | Some doc =>
                   if bool_decide (ContractDocument.doc_type doc = Some "restatement")
                   then acc ∪ {[ContractDocument.doc_id doc]}
                   else acc
               | None => acc
               end) acc nodes →
  d ∈ acc
  ∨ ∃ m doc, m ∈ nodes ∧ ClauseNode.doc_id m = d
             ∧ get_document session d = Some doc
             ∧ ContractDocument.doc_type doc = Some "restatement".
Proof.
  revert acc. induction nodes as [|n nodes IH]; intros acc Hd; simpl in Hd.
  { by left. }
  apply IH in Hd as [Hd|(m & doc & Hm & Hmd & Hdoc & Hty)].
  - destruct (get_document session (ClauseNode.doc_id n)) as [doc|] eqn:Hdoc;
      [|by left].
    case_bool_decide as Hty; [|by left].
    apply elem_of_union in Hd as [Hd|Hd]; [by left|].
    apply elem_of_singleton in Hd. right. exists n, doc.
    pose proof (get_document_Some _ _ _ Hdoc) as [_ Hid].
    split_and!; [left|congruence|congruence|done].
  - right. exists m, doc. split_and!; [by right|done..].
Qed.

Lemma collect_restatements_iff
    (session : Session) (nodes : list ClauseNode.t) (node : ClauseNode.t) :
  node ∈ nodes →
  (ClauseNode.doc_id node ∈ collect_restatements session nodes
   ↔ in_restatement session node).
Proof.
  intros Hin. split.
  - intros Hmem. apply collect_restatements_inv in Hmem
      as [Hmem|(m & doc & _ & _ & Hdoc & Hty)].
    + by apply not_elem_of_empty in Hmem.
    + by exists doc.
  - intros (doc & Hdoc & Hty). by eapply collect_restatements_elem.
Qed.

(** X5.  The set [restatement_doc_ids] built before the loop holds a node's
    document id exactly when that document is stored with
    [doc_type = "restatement"]: a node of the list takes the reset branch if
    and only if its own document is a restatement. *)
Theorem restatement_branch_iff
    (session : Session) (nodes : list ClauseNode.t) (node : ClauseNode.t) :
  node ∈ nodes →
  (ClauseNode.doc_id node ∈ collect_restatements session nodes
   ↔ in_restatement session node).
Proof. apply collect_restatements_iff. Qed.

Lemma restatement_branch_iff_witness :
  let s := Examples.restated_delete in
  let nodes := section_nodes "F" "6" s in
  let n1 := Examples.node "n1" "d1" "6" (Some "REPLACE") (Some 20240101) "old" 1 in
  ClauseNode.doc_id n1 ∈ collect_restatements s nodes ↔ in_restatement s n1.
Proof.
  intros s nodes n1.
  refine (restatement_branch_iff s nodes n1 _).
  vm_compute. apply list_elem_of_here.
Defined.

Lemma supersede_as_of_eq_iff
    (rs : gset string) (st : FoldState) (node : ClauseNode.t) :
  supersede_as_of rs st node = supersede rs st node
  ↔ loops_differ_at rs st node = false.
Proof.
  unfold supersede_as_of, supersede, loops_differ_at.
  destruct (base_text st) as [t|] eqn:Hb, (is_deleted st) eqn:Hd;
    repeat case_bool_decide; simpl; try done;
    try (split; [intros _; reflexivity|intros _; congruence]);
    try (split; [intros [=]; congruence|discriminate]);
    try congruence.
Qed.

(** X6.  The loop inlined in [query_as_of] takes the same step as the loop
    of [materialize_section] except in two situations, both outside a
    restatement and with no base text: an [ADD_NEW] read while appended
    parts are pending, and a [NO_CHANGE] read in a deleted state. *)
Theorem loops_agree_iff
    (rs : gset string) (st : FoldState) (node : ClauseNode.t) :
  supersede_as_of rs st node = supersede rs st node
  ↔ loops_differ_at rs st node = false.
Proof. apply supersede_as_of_eq_iff. Qed.

Lemma supersede_keeps_baseline rs st m :
  base_text st ≠ None → is_deleted st = false →
  is_plain_delete rs m = false →
  base_text (supersede rs st m) ≠ None ∧ is_deleted (supersede rs st m) = false.
Proof.
  unfold is_plain_delete, supersede. intros Hb Hd Hm.
  destruct (base_text st) as [t|] eqn:Hbt; [|done].
  repeat case_bool_decide; simpl in *; try done; by rewrite ?Hbt.
Qed.

Lemma establishes_baseline_first rs n :
  establishes_baseline rs n = true →
  supersede_as_of rs initial_state n = supersede rs initial_state n
  ∧ base_text (supersede rs initial_state n) ≠ None
  ∧ is_deleted (supersede rs initial_state n) = false.
Proof.
  unfold establishes_baseline, supersede_as_of, supersede. intros Hn.
  repeat case_bool_decide; simpl in *; try done;
    exfalso;
    match goal with
    | Hin : action_of n ∈ _ |- _ =>
        repeat (apply elem_of_cons in Hin as [?|Hin]; [congruence|]);
        by apply elem_of_nil in Hin
    end.
Qed.

Lemma loops_agree_from rs :
  ∀ l st,
    base_text st ≠ None → is_deleted st = false →
    Forall (λ m, is_plain_delete rs m = false) l →
    foldl (supersede_as_of rs) st l = foldl (supersede rs) st l
    ∧ is_deleted (foldl (supersede rs) st l) = false.
Proof.
  induction l as [|m l IH]; intros st Hb Hd Hl; simpl; [done|].
  apply Forall_cons in Hl as [Hm Hl].
  assert (supersede_as_of rs st m = supersede rs st m) as ->.
  { apply supersede_as_of_eq_iff. unfold loops_differ_at.
    rewrite (bool_decide_eq_false_2 (base_text st = None)) by done.
    by rewrite andb_false_r. }
  destruct (supersede_keeps_baseline rs st m Hb Hd Hm) as [Hb' Hd'].
  by apply IH.
Qed.

Lemma Sorted_weaken {A} (R R' : A → A → Prop) (l : list A) :
  (∀ a b, R a b → R' a b) → Sorted R l → Sorted R' l.
Proof.
  intros HR. induction 1 as [|x l Hl IH Hx]; constructor; [done|].
  destruct Hx; constructor. by apply HR.
Qed.

Lemma node_leb_ts_leb n m : node_leb n m = true → node_ts_leb n m = true.
Proof.
  unfold node_leb, node_ts_leb, ts_created_leb, ts_eqb.
  destruct (ts_leb (ClauseNode.effective_ts n) (ClauseNode.effective_ts m));
    simpl; [done|]. done.
Qed.

Lemma filter_and_all {A} (P Q : A → Prop) `{∀ x, Decision (P x)}
    `{∀ x, Decision (Q x)} (l : list A) :
  (∀ x, x ∈ l → P x → Q x) → filter (λ x, P x ∧ Q x) l = filter P l.
Proof.
  induction l as [|x l IH]; intros Hall; [done|].
  rewrite !filter_cons.
  rewrite IH by (intros y Hy; apply Hall; by right).
  destruct (decide (P x)) as [Hp|Hp].
  - rewrite decide_True; [done|]. split; [done|]. apply Hall; [left|done].
  - rewrite decide_False; [done|]. by intros [? _].
Qed.

(** With every node of the key dated on or before the cutoff and no two on
    the same date, [query_as_of] reads the nodes [materialize_section]
    reads, in the same order. *)
Lemma as_of_nodes_all f sec cutoff s :
  Forall (effective_by cutoff) (section_nodes f sec s) →
  NoDup (ClauseNode.effective_ts <$> section_nodes f sec s) →
  as_of_nodes f sec cutoff s = section_nodes f sec s.
Proof.
  unfold as_of_nodes, section_nodes. intros Hall Hnd.
  rewrite Forall_forall in Hall.
  rewrite filter_and_all
    by (intros x Hx Hk; apply Hall, order_by_elem_of;
        by apply list_elem_of_filter).
  set (L := filter (for_key f sec) (clause_nodes s)) in *.
  assert (Transitive (λ a b : ClauseNode.t, node_ts_leb a b = true)).
  { intros a b c. apply ts_leb_trans. }
  apply (Sorted_unique_strong (λ a b, node_ts_leb a b = true)).
  - intros x1 x2 Hx1 Hx2 H12 H21.
    apply (NoDup_fmap_inj_on ClauseNode.effective_ts (order_by node_leb L));
      [done|by apply order_by_elem_of; apply order_by_elem_of in Hx1|done|].
    by apply ts_leb_antisym.
  - apply order_by_Sorted, node_ts_leb_total.
  - eapply Sorted_weaken; [apply node_leb_ts_leb|].
    apply order_by_Sorted, node_leb_total.
  - by rewrite !order_by_Permutation.
Qed.

(** X7.  Where the two loops cannot part, the as-of answer is the current
    state: if the first node read for a key gives it a base text, no later
    node is a [DELETE] outside a restatement, and every node is dated on or
    before the cutoff with no two on the same date, then [query_as_of]
    returns [ACTIVE] with the composed text, node pointer and effective date
    that [materialize_section] computes. *)
Theorem as_of_after_all_is_current
    (sha256 : string → string) (s : Session) (f sec : string) (cutoff : Z)
    (party_a party_b : option string) (fam : Family.t)
    (n : ClauseNode.t) (l : list ClauseNode.t) :
  f ≠ "" →
  get_family s f = Some fam →
  section_nodes f sec s = n :: l →
  let rs := collect_restatements s (n :: l) in
  establishes_baseline rs n = true →
  Forall (λ m, is_plain_delete rs m = false) l →
  Forall (effective_by cutoff) (n :: l) →
  NoDup (ClauseNode.effective_ts <$> n :: l) →
  let st := materialize_fold s (n :: l) in
  is_deleted st = false
  ∧ query_as_of sha256 s sec cutoff (Some f) party_a party_b
    = mkResult "AS_OF" f sec
        (Some (AsOfActive cutoff (compose st) (base_node_id st)
                          (base_effective_ts st)))
        None.
Proof.
  intros Hf Hfam Hsn rs Hn Hl Hall Hnd st.
  destruct (establishes_baseline_first rs n Hn) as (Hstep & Hb & Hd).
  destruct (loops_agree_from rs l _ Hb Hd Hl) as [Hfold Hdel].
  assert (as_of_fold s (n :: l) = st) as Has.
  { unfold as_of_fold, st, materialize_fold. fold rs. simpl.
    by rewrite Hstep, Hfold. }
  assert (is_deleted st = false) as Hst by done.
  split; [done|].
  unfold query_as_of, _resolve_family. simpl.
  rewrite bool_decide_eq_false_2 by done. simpl. rewrite Hfam.
  apply get_family_Some in Hfam as [_ ->].
  rewrite resolve_section_id_exact by by rewrite Hsn.
  rewrite as_of_nodes_all by by rewrite Hsn.
  rewrite Hsn, Has, Hst. done.
Qed.

Lemma as_of_after_all_is_current_witness :
  let s := Examples.liability in
  query_as_of tagged_digest s "5.3" 20241231 (Some "F") None None
  = mkResult "AS_OF" "F" "5.3"
      (Some (AsOfActive 20241231 (Some "cap 1,000,000") (Some "n2")
                        (Some 20240601)))
      None.
Proof.
  refine (proj2 (as_of_after_all_is_current tagged_digest Examples.liability
                   "F" "5.3" 20241231 None None Examples.acme_widget
                   (Examples.node "n1" "d1" "5.3" (Some "NO_CHANGE")
                                  (Some 20240101) "cap 500,000" 1)
                   [Examples.node "n2" "d2" "5.3" (Some "REPLACE")
                                  (Some 20240601) "cap 1,000,000" 2]
                   _ eq_refl eq_refl eq_refl _ _ _)).
  - discriminate.
  - repeat constructor.
  - repeat constructor; vm_compute; discriminate.
  - exact (bool_decide_unpack (NoDup [Some 20240101; Some 20240601]) I).
Defined.

Lemma supersede_ext rs rs' st m :
  (ClauseNode.doc_id m ∈ rs ↔ ClauseNode.doc_id m ∈ rs') →
  supersede rs st m = supersede rs' st m
  ∧ supersede_as_of rs st m = supersede_as_of rs' st m.
Proof.
  intros Hiff. unfold supersede, supersede_as_of.
  by rewrite (bool_decide_ext _ _ Hiff).
Qed.

Lemma foldl_supersede_ext rs rs' :
  ∀ l st,
    (∀ m, m ∈ l → ClauseNode.doc_id m ∈ rs ↔ ClauseNode.doc_id m ∈ rs') →
    foldl (supersede rs) st l = foldl (supersede rs') st l
    ∧ foldl (supersede_as_of rs) st l = foldl (supersede_as_of rs') st l.
Proof.
  induction l as [|m l IH]; intros st Hl; simpl; [done|].
  destruct (supersede_ext rs rs' st m) as [-> ->]; [apply Hl; left|].
  split; apply IH; intros m' Hm'; apply Hl; by right.
Qed.

Lemma supersede_resets rs st st' n :
  ClauseNode.doc_id n ∈ rs ∨ action_of n = "REPLACE" →
  supersede rs st n = supersede rs st' n
  ∧ supersede_as_of rs st n = supersede_as_of rs st' n.
Proof.
  unfold supersede, supersede_as_of. intros [Hn|Hn].
  - by rewrite !bool_decide_eq_true_2 by done.
  - case_bool_decide; [done|]. by rewrite !bool_decide_eq_true_2 by done.
Qed.

(** X8.  History before a reset does not count: when a node belongs to a
    restatement or replaces, both loops end in the state they would reach on
    that node and the later ones alone, whatever was read before. *)
Theorem reset_forgets_history
    (s : Session) (pre post : list ClauseNode.t) (n : ClauseNode.t) :
  resets s n →
  materialize_fold s (pre ++ n :: post) = materialize_fold s (n :: post)
  ∧ as_of_fold s (pre ++ n :: post) = as_of_fold s (n :: post).
Proof.
  intros Hn. unfold materialize_fold, as_of_fold.
  set (rs := collect_restatements s (pre ++ n :: post)).
  set (rs' := collect_restatements s (n :: post)).
  assert (∀ m, m ∈ n :: post →
               ClauseNode.doc_id m ∈ rs ↔ ClauseNode.doc_id m ∈ rs') as Hmem.
  { intros m Hm. unfold rs, rs'.
    rewrite !collect_restatements_iff; [done|done|].
    apply elem_of_app. by right. }
  assert (ClauseNode.doc_id n ∈ rs ∨ action_of n = "REPLACE") as Hreset.
  { destruct Hn as [Hn|Hn]; [left|by right].
    apply collect_restatements_iff; [|done].
    apply elem_of_app. right. left. }
  rewrite !foldl_app. cbn [foldl].
  destruct (supersede_resets rs (foldl (supersede rs) initial_state pre)
              initial_state n Hreset) as [-> _].
  destruct (supersede_resets rs (foldl (supersede_as_of rs) initial_state pre)
              initial_state n Hreset) as [_ ->].
  destruct (supersede_ext rs rs' initial_state n) as [-> ->];
    [apply Hmem; left|].
  split; apply foldl_supersede_ext; intros m Hm; apply Hmem; by right.
Qed.

Lemma reset_forgets_history_witness :
  let s := Examples.restated_delete in
  let n1 := Examples.node "n1" "d1" "6" (Some "REPLACE") (Some 20240101) "old" 1 in
  let n2 := Examples.node "n2" "d3" "6" (Some "DELETE") (Some 20240901)
                          "restated text" 2 in
  materialize_fold s [n1; n2] = materialize_fold s [n2].
Proof.
  intros s n1 n2.
  refine (proj1 (reset_forgets_history s [n1] [] n2 _)).
  left. exists Examples.restated. split; reflexivity.
Defined.

(** ** Composition *)

Lemma string_app_cons (ch : ascii) (a b : string) :
  (String ch a ++ b)%string = String ch (a ++ b)%string.
Proof. reflexivity. Qed.





(** ** Section resolution and the history query *)

Lemma fuzzy_candidate_exists session f q c :
  c ∈ fuzzy_candidates session f q → section_exists session f c = true.
Proof.
  unfold fuzzy_candidates, section_exists.
  rewrite elem_of_distinct. intros (n & -> & Hn)%list_elem_of_fmap.
  apply list_elem_of_filter in Hn as [[Hfam _] Hin].
  apply bool_decide_eq_true. intros Hnil.
  assert (n ∈ filter (for_key f (ClauseNode.canonical_section_id n))
                     (clause_nodes session)) as H.
  { apply list_elem_of_filter. split; [|done]. by split. }
  rewrite Hnil in H. by apply elem_of_nil in H.
Qed.

Lemma resolve_section_id_cases session f q :
  let r := _resolve_section_id session f q in
  (r = q ∧ (section_exists session f q = true
            ∨ (section_exists session f (semantic_id_of q) = false
               ∧ fuzzy_candidates session f q = [])))
  ∨ (r ≠ q ∧ section_exists session f q = false
          ∧ section_exists session f r = true).
Proof.
  intros r. subst r. rewrite semantic_id_of_eq.
  destruct (section_exists session f q) eqn:Hq; [left; by split; [|left]|].
  destruct (section_exists session f (semantic_id_of q)) eqn:Hsem.
  { right. split_and!; [|done..]. intros Heq. rewrite Heq in Hsem. congruence. }
  destruct (fuzzy_candidates session f q) as [|c cs] eqn:Hfz.
  { left. split; [done|]. by right. }
  right. assert (section_exists session f c = true) as Hc.
  { apply (fuzzy_candidate_exists session f q). rewrite Hfz. by left. }
  split_and!; [|done..]. intros Heq. rewrite Heq in Hc. congruence.
Qed.

(** X10.  Section resolution settles after one step: the resolved id
    resolves to itself, and it is either the query unchanged or a section
    id under which the family has a clause node, the latter only when the
    family has no node under the query itself. *)
Theorem resolve_section_id_idempotent (session : Session) (f q : string) :
  let r := _resolve_section_id session f q in
  _resolve_section_id session f r = r
  ∧ (r = q ∨ (section_exists session f r = true
              ∧ section_exists session f q = false)).
Proof.
  intros r.
  destruct (resolve_section_id_cases session f q) as [[Heq Hwhy]|(Hne & Hq & Hr)];
    fold r in Heq || fold r in Hne, Hr.
  - split; [|by left]. rewrite Heq. exact Heq.
  - split; [|by right]. rewrite semantic_id_of_eq. by rewrite Hr.
Qed.

(** X11.  For a family that resolves, [query_history] reports the missing
    history exactly when the resolved key has no clause node; otherwise its
    timeline holds one entry for every node of the key, with the node's own
    action, date and text, in ascending order of effective date with the
    undated nodes last, and [total_versions] is the number of those nodes. *)
Theorem query_history_timeline
    (sha256 : string → string) (session : Session) (section : string)
    (family_id party_a party_b : option string) (fam : Family.t) :
  _resolve_family sha256 session family_id party_a party_b = Some fam →
  let fid := Family.family_id fam in
  let sec := _resolve_section_id session fid section in
  let key_nodes := filter (for_key fid sec) (clause_nodes session) in
  let r := query_history sha256 session section family_id party_a party_b in
  hr_family_id r = fid
  ∧ hr_canonical_section_id r = sec
  ∧ match key_nodes with
    | [] => hr_data r = None ∧ hr_error r = Some (NoHistory sec)
    | _ :: _ =>
        hr_error r = None
        ∧ ∃ timeline,
            hr_data r = Some (timeline, Z.of_nat (length key_nodes))
            ∧ timeline ≡ₚ history_entry session <$> key_nodes
            ∧ Sorted (λ a b, ts_leb (he_effective_ts a) (he_effective_ts b) = true)
                     timeline
    end.
Proof.
  intros Hfam fid sec key_nodes r. subst r. unfold query_history.
  rewrite Hfam. fold fid. fold sec. unfold history_nodes. fold key_nodes.
  pose proof (order_by_Permutation node_ts_leb key_nodes) as Hperm.
  pose proof (order_by_Sorted node_ts_leb node_ts_leb_total key_nodes) as Hsorted.
  destruct key_nodes as [|n ns] eqn:Hkey.
  { simpl. by split_and!. }
  destruct (order_by node_ts_leb (n :: ns)) as [|m ms] eqn:Hord.
  { by apply Permutation_nil_cons in Hperm. }
  cbn [hr_family_id hr_canonical_section_id hr_error hr_data].
  split_and!; [done..|].
  exists (history_entry session <$> m :: ms). split_and!.
  - rewrite length_fmap, (Permutation_length Hperm). done.
  - by rewrite Hperm.
  - eapply Sorted_fmap; [|exact Hsorted]. by intros x y.
Qed.

Lemma query_history_timeline_witness :
  let r := query_history tagged_digest Examples.liability "5.3" (Some "F")
                         None None in
  hr_error r = None
  ∧ ∃ timeline,
      hr_data r = Some (timeline, 2)
      ∧ timeline
        ≡ₚ [mkHistory (Some 1) (Some "master") (Some "NO_CHANGE") (Some 20240101)
                      "cap 500,000";
            mkHistory (Some 2) (Some "amendment") (Some "REPLACE") (Some 20240601)
                      "cap 1,000,000"]
      ∧ Sorted (λ a b, ts_leb (he_effective_ts a) (he_effective_ts b) = true)
               timeline.
Proof.
  exact (proj2 (proj2 (query_history_timeline tagged_digest Examples.liability
                         "5.3" (Some "F") None None Examples.acme_widget
                         eq_refl))).
Defined.


(** ** Version numbers and the documents they name *)

Lemma find_unique {A} (p : A → bool) (l : list A) (x : A) :
  x ∈ l → p x = true → (∀ y, y ∈ l → p y = true → y = x) →
  List.find p l = Some x.
Proof.
  induction l as [|a l IH]; intros Hin Hp Hu.
  { by apply elem_of_nil in Hin. }
  simpl. destruct (p a) eqn:Ha.
  - f_equal. apply Hu; [by left|done].
  - apply IH; [|done|].
    + apply elem_of_cons in Hin as [->|Hin]; [congruence|done].
    + intros y Hy. apply Hu. by right.
Qed.

Lemma family_docs_of_ranked fid r L docs :
  family_docs_of fid (ranked_at r L <$> docs)
  = ranked_at r L <$> family_docs_of fid docs.
Proof.
  unfold family_docs_of. rewrite filter_fmap_same.
  - apply order_by_fmap. intros x y. unfold doc_leb.
    destruct (ranked_at_keeps r L x) as (_ & _ & _ & -> & ->).
    by destruct (ranked_at_keeps r L y) as (_ & _ & _ & -> & ->).
  - intros x. unfold in_family.
    by destruct (ranked_at_keeps r L x) as (_ & -> & _).
Qed.

Lemma max_ingest_of_ranked fid r L docs :
  max_ingest_of fid (ranked_at r L <$> docs) = max_ingest_of fid docs.
Proof.
  unfold max_ingest_of. rewrite filter_fmap_same.
  - rewrite <-list_fmap_compose. f_equal. f_equal.
    apply list_fmap_ext. intros _ x _. unfold Basics.compose.
    by destruct (ranked_at_keeps r L x) as (_ & _ & -> & _).
  - intros x. unfold in_family.
    by destruct (ranked_at_keeps r L x) as (_ & -> & _).
Qed.

Lemma sql_max_attained (l : list (option Z)) (v : Z) :
  Some v ∈ l → (∀ w, Some w ∈ l → w ≤ v) → sql_max l = Some v.
Proof.
  intros Hin Hle. pose proof (sql_max_spec l) as Hspec.
  destruct (sql_max l) as [m|].
  - destruct Hspec as [Hm Hall]. f_equal.
    specialize (Hle m Hm). specialize (Hall v Hin). lia.
  - by apply Hspec in Hin.
Qed.

Lemma max_ingest_of_upper fid docs d w :
  d ∈ docs → in_family fid d → ContractDocument.doc_version_ingest d = Some w →
  w ≤ max_ingest_of fid docs.
Proof.
  intros Hd Hfam Hw. unfold max_ingest_of.
  pose proof (sql_max_spec (ContractDocument.doc_version_ingest
                              <$> filter (in_family fid) docs)) as Hspec.
  assert (Some w ∈ ContractDocument.doc_version_ingest
                     <$> filter (in_family fid) docs) as Hin.
  { apply list_elem_of_fmap. exists d. split; [done|].
    by apply list_elem_of_filter. }
  destruct (sql_max _) as [m|]; simpl.
  - by apply Hspec.
  - by apply Hspec in Hin.
Qed.

(** X13.  After [assign_doc_versions], the timeline versions of a family
    name its documents one to one: [find_version], the lookup with which
    [query_changes] turns a version number into a document, succeeds exactly
    for the numbers 1 to the size of the family, and every document of the
    family is the one found under its own timeline version. *)
Theorem timeline_versions_name_documents
    (doc_id fid : string) (ets : option Z) (s : Session) :
  NoDup (ContractDocument.doc_id <$> documents s) →
  let s' := (assign_doc_versions doc_id fid ets s).2 in
  let n := length (filter (in_family fid) (documents s')) in
  (∀ v, is_Some (find_version s' fid v) ↔ 1 ≤ v ≤ Z.of_nat n)
  ∧ (∀ d, d ∈ documents s' → in_family fid d →
          ∃ v, ContractDocument.doc_version_timeline d = Some v
               ∧ find_version s' fid v = Some d).
Proof.
  intros Hnd s' n.
  destruct (assign_doc_versions_eq doc_id fid ets s Hnd) as [HndL Heq].
  set (v0 := max_ingest_of fid (documents s) + 1) in *.
  set (docs1 := update_document doc_id (with_assignment fid v0 ets) (documents s)) in *.
  set (L := family_docs_of fid docs1) in *.
  set (g := ranked_at 1 L).
  assert (documents s' = g <$> docs1) as Hdocs.
  { subst s'. by rewrite Heq. }
  assert (∀ x, in_family fid (g x) ↔ in_family fid x) as Hkeep.
  { intros x. unfold g, in_family.
    by destruct (ranked_at_keeps 1 L x) as (_ & -> & _). }
  assert (n = length L) as Hn.
  { subst n. rewrite Hdocs, filter_fmap_same by done.
    rewrite length_fmap. unfold L, family_docs_of.
    by rewrite order_by_Permutation. }
  assert (∀ i fd, L !! i = Some fd →
                  ContractDocument.doc_version_timeline (g fd)
                  = Some (1 + Z.of_nat i)) as Hrank.
  { intros i fd Hi. unfold g, ranked_at.
    by rewrite (list_find_own_position L i fd HndL Hi). }
  assert (∀ d, d ∈ documents s' → in_family fid d →
               ∃ i fd, L !! i = Some fd ∧ d = g fd) as Hback.
  { intros d Hd Hfam. rewrite Hdocs in Hd.
    apply list_elem_of_fmap in Hd as (d1 & -> & Hd1).
    assert (d1 ∈ L) as [i Hi]%list_elem_of_lookup; [|by eauto].
    unfold L, family_docs_of. apply order_by_elem_of, list_elem_of_filter.
    split; [by apply Hkeep|done]. }
  assert (∀ i fd, L !! i = Some fd →
                  find_version s' fid (1 + Z.of_nat i) = Some (g fd)) as Hfind.
  { intros i fd Hi. unfold find_version.
    assert (fd ∈ docs1 ∧ in_family fid fd) as [Hfd Hfam].
    { apply list_elem_of_lookup_2 in Hi. unfold L, family_docs_of in Hi.
      apply order_by_elem_of, list_elem_of_filter in Hi. tauto. }
    assert (in_family fid (g fd)) as Hfam' by by apply Hkeep.
    apply find_unique.
    - rewrite Hdocs. apply list_elem_of_fmap. by exists fd.
    - apply andb_true_iff. split; apply bool_decide_eq_true; [done|].
      by apply Hrank.
    - intros y Hy [Hyf Hyv]%andb_true_iff.
      apply bool_decide_eq_true in Hyf, Hyv.
      destruct (Hback y Hy Hyf) as (j & fd' & Hj & ->).
      rewrite (Hrank j fd' Hj) in Hyv.
      assert (j = i) as -> by (injection Hyv; lia). congruence. }
  split.
  - intros v. split.
    + intros [d Hd]. unfold find_version in Hd.
      apply find_some in Hd as [Hin [Hf Hv]%andb_true_iff].
      apply bool_decide_eq_true in Hf, Hv. apply list_elem_of_In in Hin.
      destruct (Hback d Hin Hf) as (i & fd & Hi & ->).
      rewrite (Hrank i fd Hi) in Hv. injection Hv as <-.
      apply lookup_lt_Some in Hi. lia.
    + intros Hv.
      destruct (lookup_lt_is_Some_2 L (Z.to_nat (v - 1))) as [fd Hi]; [lia|].
      exists (g fd). rewrite <-(Hfind _ _ Hi). f_equal. lia.
  - intros d Hd Hfam. destruct (Hback d Hd Hfam) as (i & fd & Hi & ->).
    exists (1 + Z.of_nat i). split; [by apply Hrank|by apply Hfind].
Qed.

Lemma timeline_versions_name_documents_witness :
  let s' := (assign_doc_versions "early" "F" (Some 20240101) Examples.arrival2).2 in
  (∀ v, is_Some (find_version s' "F" v) ↔ 1 ≤ v ≤ 2)
  ∧ (∀ d, d ∈ documents s' → in_family "F" d →
          ∃ v, ContractDocument.doc_version_timeline d = Some v
               ∧ find_version s' "F" v = Some d).
Proof.
  exact (timeline_versions_name_documents "early" "F" (Some 20240101)
           Examples.arrival2
           (bool_decide_unpack
              (NoDup (ContractDocument.doc_id <$> documents Examples.arrival2)) I)).
Defined.

(** X14.  The ingestion version returned for a stored document becomes the
    family's greatest stored one, so the next call for the family, whichever
    document it names (the same one included), returns one more; a call
    that names no stored document stamps nothing: it returns timeline
    version 0 and the next call returns the same ingestion version again. *)
Theorem assign_doc_versions_next
    (doc_id doc_id' fid : string) (ets ets' : option Z) (s : Session) :
  NoDup (ContractDocument.doc_id <$> documents s) →
  let r := assign_doc_versions doc_id fid ets s in
  let r' := assign_doc_versions doc_id' fid ets' r.2 in
  match get_document s doc_id with
  | Some _ => r'.1.1 = r.1.1 + 1
  | None => r.1.2 = 0 ∧ r'.1.1 = r.1.1
  end.
Proof.
  intros Hnd r r'.
  destruct (assign_doc_versions_eq doc_id fid ets s Hnd) as [HndL Heq].
  set (v := max_ingest_of fid (documents s) + 1) in *.
  set (docs1 := update_document doc_id (with_assignment fid v ets) (documents s)) in *.
  set (L := family_docs_of fid docs1) in *.
  assert (r'.1.1 = max_ingest_of fid docs1 + 1) as Hnext.
  { subst r' r. rewrite Heq. unfold assign_doc_versions at 1.
    destruct (assign_ranks _ _ _ _ _). simpl.
    by rewrite max_ingest_of_ranked. }
  assert (r.1.1 = v) as Hv by (subst r; by rewrite Heq).
  destruct (get_document s doc_id) as [d0|] eqn:Hget.
  - rewrite Hnext, Hv. f_equal. unfold max_ingest_of at 1.
    apply get_document_Some in Hget as [Hd0 Hid0].
    rewrite (sql_max_attained _ v); [done|..].
    + apply list_elem_of_fmap. exists (with_assignment fid v ets d0).
      split; [done|]. apply list_elem_of_filter. split; [done|].
      unfold docs1, update_document. apply list_elem_of_fmap. exists d0.
      by rewrite bool_decide_eq_true_2.
    + intros w (x & Hw & Hx)%list_elem_of_fmap.
      apply list_elem_of_filter in Hx as [Hfam Hx].
      unfold docs1, update_document in Hx.
      apply list_elem_of_fmap in Hx as (x0 & -> & Hx0).
      case_bool_decide as Hid.
      * simpl in Hw. injection Hw as <-. lia.
      * pose proof (max_ingest_of_upper fid (documents s) x0 w Hx0 Hfam
                      (eq_sym Hw)).
        lia.
  - assert (docs1 = documents s) as Hsame.
    { unfold docs1. by apply update_document_absent. }
    assert (list_find (λ fd, ContractDocument.doc_id fd = doc_id) L = None)
      as Hnone.
    { apply list_find_None, Forall_forall. intros x Hx Hid.
      unfold L, family_docs_of in Hx.
      apply order_by_elem_of, list_elem_of_filter in Hx as [_ Hx].
      rewrite Hsame in Hx. apply list_elem_of_In in Hx.
      unfold get_document in Hget.
      pose proof (find_none _ _ Hget x Hx) as Hne. simpl in Hne.
      by apply bool_decide_eq_false in Hne. }
    split.
    + subst r. rewrite Heq. simpl. by rewrite Hnone.
    + rewrite Hnext, Hv, Hsame. done.
Qed.

Lemma assign_doc_versions_next_witness :
  let r := assign_doc_versions "early" "F" (Some 20240101) Examples.arrival2 in
  (assign_doc_versions "early" "F" (Some 20240101) r.2).1.1 = r.1.1 + 1.
Proof.
  exact (assign_doc_versions_next "early" "early" "F" (Some 20240101)
           (Some 20240101) Examples.arrival2
           (bool_decide_unpack
              (NoDup (ContractDocument.doc_id <$> documents Examples.arrival2)) I)).
Defined.

(** ** Families: what creation stores and how it is found again *)

Lemma sorted2_spec (x y : string) :
  ∃ u v, Py.sorted2 x y = [u; v] ∧ String.leb u v = true ∧ [u; v] ≡ₚ [x; y].
Proof.
  unfold Py.sorted2, String.ltb, String.leb.
  destruct (String.compare y x) eqn:E.
  - exists x, y. split_and!; [done| |done].
    rewrite String.compare_antisym, E. done.
  - exists y, x. split_and!; [done| |apply Permutation_swap].
    by rewrite E.
  - exists x, y. split_and!; [done| |done].
    rewrite String.compare_antisym, E. done.
Qed.

Section family_creation.
Context (sha256 : string → string).

Lemma match_or_create_family_cases now a b session fid session1 :
  match_or_create_family sha256 now a b session = Some (fid, session1) →
  let kh := compute_family_keys_hash sha256 a b in
  (session1 = session
   ∧ ∃ fam, List.find (λ f, bool_decide (Family.family_keys_hash f = kh))
                      (families session) = Some fam
            ∧ Family.family_id fam = fid)
  ∨ (List.find (λ f, bool_decide (Family.family_keys_hash f = kh))
               (families session) = None
     ∧ fid = compute_family_id sha256 kh
     ∧ (∀ f, f ∈ families session →
             Family.family_id f ≠ fid ∧ Family.family_keys_hash f ≠ kh)
     ∧ ∃ u v, Py.sorted2 (normal_name a) (normal_name b) = [u; v]
              ∧ session1
                = set_families (families session ++ [Family.mk fid kh u v now])
                               session).
Proof.
  intros Hcall kh. unfold match_or_create_family in Hcall. fold kh in Hcall.
  destruct (List.find _ (families session)) as [existing|] eqn:Hfind.
  { left. injection Hcall as <- <-. eauto. }
  right. unfold add_family in Hcall. simpl in Hcall.
  destruct (existsb _ (families session)) eqn:Hex; [done|].
  injection Hcall as <- <-.
  destruct (sorted2_spec (normal_name a) (normal_name b)) as (u & v & Hs & _).
  split_and!; [done..| |].
  - intros f Hf. apply list_elem_of_In in Hf.
    split; intros Heq; enough (true = false) by done; rewrite <-Hex;
      symmetry; apply existsb_exists; exists f; (split; [done|]);
      apply orb_true_iff; [left|right]; by apply bool_decide_eq_true.
  - exists u, v. split; [done|]. unfold normal_name in Hs. by rewrite Hs.
Qed.

(** X15.  [match_or_create_family] touches only the family table, and there
    adds at most one row at the end: the row carries the returned id, the
    key hash of the two names, and the two normalized names in ascending
    order; no stored family had that id or that key hash, so ids and key
    hashes that were pairwise different stay so. *)
Theorem match_or_create_family_adds_one
    (now : Z) (a b : string) (session session1 : Session) (fid : string) :
  match_or_create_family sha256 now a b session = Some (fid, session1) →
  let kh := compute_family_keys_hash sha256 a b in
  documents session1 = documents session
  ∧ clause_nodes session1 = clause_nodes session
  ∧ family_section_current session1 = family_section_current session
  ∧ (families session1 = families session
     ∨ ∃ u v, families session1
              = (families session ++ [Family.mk fid kh u v now])%list
              ∧ fid = compute_family_id sha256 kh
              ∧ String.leb u v = true
              ∧ [u; v] ≡ₚ [normal_name a; normal_name b])
  ∧ (NoDup (Family.family_id <$> families session) →
     NoDup (Family.family_id <$> families session1))
  ∧ (NoDup (Family.family_keys_hash <$> families session) →
     NoDup (Family.family_keys_hash <$> families session1)).
Proof.
  intros Hcall kh.
  destruct (match_or_create_family_cases _ _ _ _ _ _ Hcall)
    as [[-> _]|(_ & Hfid & Hfresh & u & v & Hs & ->)].
  { split_and!; try done. by left. }
  simpl. split_and!; try done.
  - right. exists u, v. split_and!; [done..| |].
    + destruct (sorted2_spec (normal_name a) (normal_name b))
        as (u' & v' & Hs' & Hle & _).
      rewrite Hs in Hs'. by injection Hs' as -> ->.
    + destruct (sorted2_spec (normal_name a) (normal_name b))
        as (u' & v' & Hs' & _ & Hp).
      rewrite Hs in Hs'. by injection Hs' as -> ->.
  - intros Hnd. rewrite fmap_app. apply NoDup_app. split_and!; [done| |].
    + intros x (f & -> & Hf)%list_elem_of_fmap Hx.
      apply list_elem_of_singleton in Hx. simpl in Hx.
      by destruct (Hfresh f Hf).
    + apply NoDup_singleton.
  - intros Hnd. rewrite fmap_app. apply NoDup_app. split_and!; [done| |].
    + intros x (f & -> & Hf)%list_elem_of_fmap Hx.
      apply list_elem_of_singleton in Hx. simpl in Hx.
      by destruct (Hfresh f Hf).
    + apply NoDup_singleton.
Qed.

(** X16.  A family that [match_or_create_family] returned is found again by
    [_resolve_family]: under the two party names in either order, letter
    case and surrounding whitespace (non-empty as given), and, where family
    ids are pairwise different, under the returned id if it is not the
    empty string. *)
Theorem created_family_resolves
    (now : Z) (a b a' b' : string) (session session1 : Session) (fid : string)
    (other_a other_b : option string) :
  match_or_create_family sha256 now a b session = Some (fid, session1) →
  same_parties a b a' b' →
  a' ≠ "" → b' ≠ "" →
  ∃ fam, _resolve_family sha256 session1 None (Some a') (Some b') = Some fam
         ∧ Family.family_id fam = fid
         ∧ (NoDup (Family.family_id <$> families session) → fid ≠ "" →
            _resolve_family sha256 session1 (Some fid) other_a other_b = Some fam).
Proof.
  intros Hcall Hsame Ha Hb.
  pose proof (family_keys_hash_same_parties sha256 _ _ _ _ Hsame) as Hkh.
  assert (∃ fam, List.find (λ f, bool_decide (Family.family_keys_hash f
                                  = compute_family_keys_hash sha256 a b))
                           (families session1) = Some fam
                 ∧ Family.family_id fam = fid
                 ∧ (NoDup (Family.family_id <$> families session) →
                    get_family session1 fid = Some fam))
    as (fam & Hfind & Hid & Hget).
  { destruct (match_or_create_family_cases _ _ _ _ _ _ Hcall)
      as [[-> (fam & Hfind & Hid)]|(Hnone & Hfid & Hfresh & u & v & Hs & ->)].
    - exists fam. split_and!; [done..|]. intros Hnd.
      apply find_some in Hfind as Hin. destruct Hin as [Hin _].
      apply list_elem_of_In in Hin.
      unfold get_family. apply find_unique; [done|by apply bool_decide_eq_true|].
      intros y Hy Hyid%bool_decide_eq_true.
      apply list_elem_of_lookup in Hy as [i Hi], Hin as [j Hj].
      assert (i = j) as ->; [|congruence].
      eapply (NoDup_lookup _ _ _ fid Hnd); rewrite list_lookup_fmap.
      + by rewrite Hi, <-Hyid.
      + by rewrite Hj, <-Hid.
    - eexists. simpl. rewrite find_snoc, Hnone. simpl.
      rewrite bool_decide_eq_true_2 by done. split_and!; [done..|].
      intros _. unfold get_family. simpl. rewrite find_snoc.
      destruct (List.find (λ f, bool_decide (Family.family_id f = fid))
                          (families session)) as [f|] eqn:Hold.
      + apply find_some in Hold as [Hf Hk]. simpl in Hk.
        apply bool_decide_eq_true in Hk. apply list_elem_of_In in Hf.
        by destruct (Hfresh f Hf).
      + simpl. by rewrite bool_decide_eq_true_2. }
  exists fam. split_and!; [|done|].
  - unfold _resolve_family. simpl.
    rewrite !bool_decide_eq_false_2 by done. simpl. by rewrite <-Hkh.
  - intros Hnd Hne. unfold _resolve_family. simpl.
    rewrite bool_decide_eq_false_2 by done. simpl. by apply Hget.
Qed.
End family_creation.

Lemma match_or_create_family_adds_one_witness :
  let kh := compute_family_keys_hash tagged_digest "Widget" " acme " in
  let fid := compute_family_id tagged_digest kh in
  let session1 := mkSession [Family.mk fid kh "acme" "widget" 1] [] [] ∅ in
  match_or_create_family tagged_digest 1 "Widget" " acme " Examples.empty_session
  = Some (fid, session1)
  ∧ (NoDup (Family.family_id <$> families Examples.empty_session) →
     NoDup (Family.family_id <$> families session1)).
Proof.
  intros kh fid session1. split; [reflexivity|].
  exact (proj1 (proj2 (proj2 (proj2 (proj2
           (match_or_create_family_adds_one tagged_digest 1 "Widget" " acme "
              Examples.empty_session session1 fid eq_refl)))))).
Defined.

Lemma created_family_resolves_witness :
  let first :=
    match_or_create_family tagged_digest 1 "Widget" " acme " Examples.empty_session in
  let session1 := default Examples.empty_session (snd <$> first) in
  ∃ fam, _resolve_family tagged_digest session1 None (Some "ACME") (Some "widget ")
         = Some fam
         ∧ Some (Family.family_id fam) = fst <$> first.
Proof.
  destruct (created_family_resolves tagged_digest 1 "Widget" " acme "
              "ACME" "widget " Examples.empty_session _ _ None None eq_refl)
    as (fam & Hfam & Hid & _).
  - right. split; reflexivity.
  - done.
  - done.
  - exists fam. split; [exact Hfam|]. simpl. by rewrite Hid.
Defined.

(** ** Validated enrichment output *)

Lemma upper_char_fold (c : ascii) :
  Py.upper_char (Py.upper_char c) = Py.upper_char c
  ∧ Py.upper_char (Py.lower_char c) = Py.upper_char c
  ∧ Py.lower_char (Py.lower_char c) = Py.lower_char c
  ∧ Py.lower_char (Py.upper_char c) = Py.lower_char c.
Proof. destruct c as [[] [] [] [] [] [] [] []]; by vm_compute. Qed.

Lemma map_chars_compose (f g h : ascii → ascii) (s : string) :
  (∀ c, f (g c) = h c) → Py.map_chars f (Py.map_chars g s) = Py.map_chars h s.
Proof. intros Hc. induction s as [|c s IH]; simpl; [done|]. by rewrite Hc, IH. Qed.

Lemma upper_upper s : Py.upper (Py.upper s) = Py.upper s.
Proof. apply map_chars_compose. intros c. apply upper_char_fold. Qed.

Lemma upper_lower s : Py.upper (Py.lower s) = Py.upper s.
Proof. apply map_chars_compose. intros c. apply upper_char_fold. Qed.

Lemma lower_lower s : Py.lower (Py.lower s) = Py.lower s.
Proof. apply map_chars_compose. intros c. apply upper_char_fold. Qed.

Lemma lower_upper s : Py.lower (Py.upper s) = Py.lower s.
Proof. apply map_chars_compose. intros c. apply upper_char_fold. Qed.

Lemma validate_change_action_cases v :
  validate_change_action v = None
  ∨ ∃ a, validate_change_action v = Some a
         ∧ a ∈ ["REPLACE"; "APPEND"; "ADD_NEW"; "DELETE"; "NO_CHANGE"]
         ∧ ∃ s, v = Some s ∧ Py.upper s = a.
Proof.
  destruct v as [s|]; simpl; [|by left].
  case_bool_decide as Hin; [|by left].
  right. exists (Py.upper s). split_and!; [done..|]. by exists s.
Qed.

(** X17.  What [validate_change_action] lets through is storable and is
    read back as it is: the result always satisfies the check constraint of
    the node table, validating it again changes nothing, the letter case of
    the input does not matter, and the supersession loops read a node that
    carries the result as exactly that action, a rejected value (stored as
    null) as [NO_CHANGE]. *)
Theorem validate_change_action_storable (v : option string) :
  let r := validate_change_action v in
  ck_change_action_b r = true
  ∧ validate_change_action r = r
  ∧ validate_change_action (Py.lower <$> v) = r
  ∧ validate_change_action (Py.upper <$> v) = r
  ∧ ∀ node, ClauseNode.change_action node = r →
            action_of node = default "NO_CHANGE" r.
Proof.
  intros r.
  assert (validate_change_action (Py.lower <$> v) = r
          ∧ validate_change_action (Py.upper <$> v) = r) as [Hl Hu].
  { subst r. destruct v as [s|]; [|done]. simpl.
    by rewrite upper_lower, upper_upper. }
  split_and!; [| |done..|]; subst r;
    destruct (validate_change_action_cases v) as [->|(a & -> & Ha & _)];
    try done.
  - repeat (apply elem_of_cons in Ha as [->|Ha]; [by vm_compute|]).
    by apply elem_of_nil in Ha.
  - repeat (apply elem_of_cons in Ha as [->|Ha]; [done|]).
    by apply elem_of_nil in Ha.
  - intros node Hnode. unfold action_of. by rewrite Hnode.
  - intros node Hnode. unfold action_of. rewrite Hnode. simpl.
    repeat (apply elem_of_cons in Ha as [->|Ha]; [done|]).
    by apply elem_of_nil in Ha.
Qed.

(** X18.  [validate_doc_type] returns null or one of the five document
    types in lower case, whatever the letter case of the input; validating
    the result again changes nothing; and the result is ["restatement"], the
    value the supersession loops compare with, exactly when the input is
    that word in some letter case. *)
Theorem validate_doc_type_normal (v : option string) :
  let r := validate_doc_type v in
  r ∈ [None; Some "master"; Some "amendment"; Some "restatement"; Some "sow";
       Some "addendum"]
  ∧ validate_doc_type r = r
  ∧ validate_doc_type (Py.upper <$> v) = r
  ∧ (r = Some "restatement" ↔ Py.lower <$> v = Some "restatement").
Proof.
  intros r. subst r. destruct v as [s|]; simpl.
  2:{ split_and!; [by left|done..|by split]. }
  rewrite lower_upper.
  assert (bool_decide (Py.upper s = "") = bool_decide (s = "")) as ->.
  { apply bool_decide_ext. by destruct s. }
  case_bool_decide as Hin.
  2:{ split_and!; [by left|done..|]. split; [done|]. intros [= Hs].
      exfalso. apply Hin. rewrite Hs. do 2 right. by left. }
  case_bool_decide as Hempty.
  { subst s. apply (bool_decide_pack _) in Hin. by vm_compute in Hin. }
  split_and!; [| |done|].
  - revert Hin. generalize (Py.lower s). intros t Ht.
    repeat (apply elem_of_cons in Ht as [->|Ht];
            [apply (bool_decide_unpack _); by vm_compute|]).
    by apply elem_of_nil in Ht.
  - simpl. rewrite lower_lower, bool_decide_eq_true_2 by done.
    rewrite bool_decide_eq_false_2; [done|].
    intros Hl. rewrite Hl in Hin. apply (bool_decide_pack _) in Hin.
    by vm_compute in Hin.
  - split; congruence.
Qed.

(** ** Storing clause nodes *)

Lemma find_replace_rows (g : ClauseNode.t → ClauseNode.t) nodes id :
  (∀ n, ClauseNode.node_id (g n) = ClauseNode.node_id n) →
  get_node (g <$> nodes) id = g <$> get_node nodes id.
Proof.
  intros Hg. unfold get_node. induction nodes as [|n nodes IH]; [done|].
  rewrite fmap_cons. simpl. rewrite Hg. by case_bool_decide.
Qed.

Lemma get_node_Some nodes id n :
  get_node nodes id = Some n → n ∈ nodes ∧ ClauseNode.node_id n = id.
Proof.
  unfold get_node. intros H. apply find_some in H as [Hin Hk].
  split; [by apply list_elem_of_In|by apply bool_decide_eq_true in Hk].
Qed.

Lemma get_node_None nodes id :
  get_node nodes id = None ↔ id ∉ ClauseNode.node_id <$> nodes.
Proof.
  unfold get_node. induction nodes as [|n nodes IH].
  - split; [|done]. intros _ Hin. by apply elem_of_nil in Hin.
  - rewrite fmap_cons, not_elem_of_cons. cbn [List.find].
    case_bool_decide as Hid.
    + split; [done|]. by intros [? _].
    + rewrite IH. split; [by split|tauto].
Qed.

Lemma replace_keeps_id (node : TransientNode.t) n :
  ClauseNode.node_id
    (if bool_decide (ClauseNode.node_id n = TransientNode.node_id node)
     then row_of (ClauseNode.created_at n) node else n)
  = ClauseNode.node_id n.
Proof. by case_bool_decide. Qed.

Lemma merge_node_lookup now node nodes id :
  get_node (merge_node now node nodes) id
  = if bool_decide (id = TransientNode.node_id node)
    then Some (merged_row now node nodes)
    else get_node nodes id.
Proof.
  unfold merge_node, merged_row.
  destruct (decide (id = TransientNode.node_id node)) as [->|Hne].
  - rewrite bool_decide_eq_true_2 by done.
    destruct (get_node nodes (TransientNode.node_id node)) as [old|] eqn:Hold.
    + rewrite find_replace_rows, Hold by apply replace_keeps_id. simpl.
      apply get_node_Some in Hold as [_ Hold].
      by rewrite bool_decide_eq_true_2.
    + unfold get_node in *. rewrite find_snoc, Hold. simpl.
      by rewrite bool_decide_eq_true_2.
  - rewrite bool_decide_eq_false_2 by done.
    destruct (get_node nodes (TransientNode.node_id node)) as [old|] eqn:Hold.
    + rewrite find_replace_rows by apply replace_keeps_id.
      destruct (get_node nodes id) as [n|] eqn:Hn; [|done]. simpl.
      apply get_node_Some in Hn as [_ Hn].
      rewrite bool_decide_eq_false_2; [done|congruence].
    + clear Hold. unfold get_node. rewrite find_snoc. simpl.
      destruct (List.find _ nodes); [done|].
      rewrite bool_decide_eq_false_2; [done|congruence].
Qed.

Lemma merged_row_eq now node nodes :
  merged_row now node nodes
  = row_of (from_option ClauseNode.created_at now
              (get_node nodes (TransientNode.node_id node))) node.
Proof. unfold merged_row. by destruct (get_node _ _). Qed.

Lemma merge_node_ids now node nodes :
  ClauseNode.node_id <$> merge_node now node nodes
  = match get_node nodes (TransientNode.node_id node) with
    | Some _ => ClauseNode.node_id <$> nodes
    | None => (ClauseNode.node_id <$> nodes) ++ [TransientNode.node_id node]
    end%list.
Proof.
  unfold merge_node.
  destruct (get_node nodes (TransientNode.node_id node)) as [old|] eqn:Hold.
  - rewrite <-list_fmap_compose. apply list_fmap_ext. intros _ n _.
    apply replace_keeps_id.
  - by rewrite fmap_app.
Qed.

Lemma merge_node_NoDup now node nodes :
  NoDup (ClauseNode.node_id <$> nodes) →
  NoDup (ClauseNode.node_id <$> merge_node now node nodes).
Proof.
  intros Hnd. rewrite merge_node_ids.
  destruct (get_node nodes (TransientNode.node_id node)) eqn:Hold; [done|].
  apply NoDup_app. split_and!; [done| |apply NoDup_singleton].
  intros x Hx ->%list_elem_of_singleton. by apply get_node_None in Hold.
Qed.

(** Merging the same object again changes no row. *)
Lemma merge_node_again now now' node nodes :
  merge_node now' node (merge_node now node nodes) = merge_node now node nodes.
Proof.
  unfold merge_node at 1.
  rewrite merge_node_lookup, bool_decide_eq_true_2 by done.
  rewrite <-(list_fmap_id (merge_node now node nodes)) at 2.
  apply list_fmap_ext. intros _ n Hn%list_elem_of_lookup_2. simpl.
  case_bool_decide as Hn'; [|done].
  unfold merge_node in Hn.
  destruct (get_node nodes (TransientNode.node_id node)) as [old|] eqn:Hold.
  - apply list_elem_of_fmap in Hn as (n0 & -> & _).
    rewrite replace_keeps_id in Hn'. by rewrite bool_decide_eq_true_2.
  - apply elem_of_app in Hn as [Hn|Hn%list_elem_of_singleton]; [|by subst n].
    exfalso. apply get_node_None in Hold. apply Hold. rewrite <-Hn'.
    apply list_elem_of_fmap. eauto.
Qed.

Lemma store_clause_sql_Some sha256 now enriched doc_id family_id dets session
    node session1 :
  store_clause_sql sha256 now enriched doc_id family_id dets session
  = Some (node, session1) →
  is_Some (get_document session doc_id)
  ∧ is_Some (get_family session family_id)
  ∧ node = new_clause_node sha256 enriched doc_id family_id dets
  ∧ session1 = set_clause_nodes (merge_node now node (clause_nodes session)) session
  ∧ ∀ now' session',
      families session' = families session →
      documents session' = documents session →
      store_clause_sql sha256 now' enriched doc_id family_id dets session'
      = Some (node,
              set_clause_nodes (merge_node now' node (clause_nodes session'))
                               session').
Proof.
  unfold store_clause_sql. intros Hcall.
  destruct (get_document session doc_id) as [doc|] eqn:Hdoc; [|done].
  destruct (get_family session family_id) as [fam|] eqn:Hfam; [|done].
  destruct (_ && _) eqn:Hck; [|done].
  injection Hcall as <- <-. split_and!; [by eexists..|done|done|].
  intros now' session' Hfams Hdocs. unfold get_document, get_family in *.
  by rewrite Hdocs, Hfams, Hdoc, Hfam.
Qed.

Lemma store_clause_sql_facts
    (sha256 : string → string) (now now' : Z) (enriched : EnrichedClause.t)
    (doc_id family_id : string) (doc_effective_ts : option Z)
    (session session1 : Session) (node : TransientNode.t) :
  store_clause_sql sha256 now enriched doc_id family_id doc_effective_ts session
  = Some (node, session1) →
  let chunk := EnrichedClause.chunk enriched in
  let nid := compute_node_id sha256 doc_id (ClauseChunk.page chunk)
               (ClauseChunk.span_start chunk) (ClauseChunk.span_end chunk)
               (EnrichedClause.canonical_section_id enriched) in
  node
  = TransientNode.mk nid doc_id family_id
      (EnrichedClause.canonical_section_id enriched)
      (EnrichedClause.referenced_section_id enriched)
      (EnrichedClause.change_action enriched)
      (EnrichedClause.modifies_section_id enriched)
      (match EnrichedClause.effective_ts enriched with
       | Some t => Some t
       | None => doc_effective_ts
       end)
      (ClauseChunk.text chunk)
  ∧ (∀ id, get_node (clause_nodes session1) id
           = if bool_decide (id = nid)
             then Some (row_of (from_option ClauseNode.created_at now
                                  (get_node (clause_nodes session) nid))
                               node)
             else get_node (clause_nodes session) id)
  ∧ families session1 = families session
  ∧ documents session1 = documents session
  ∧ family_section_current session1 = family_section_current session
  ∧ (NoDup (ClauseNode.node_id <$> clause_nodes session) →
     NoDup (ClauseNode.node_id <$> clause_nodes session1))
  ∧ length (clause_nodes session1)
    = (length (clause_nodes session)
       + match get_node (clause_nodes session) nid with
         | Some _ => 0
         | None => 1
         end)%nat
  ∧ store_clause_sql sha256 now' enriched doc_id family_id doc_effective_ts
                     session1
    = Some (node, session1).
Proof.
  intros Hcall chunk nid.
  destruct (store_clause_sql_Some _ _ _ _ _ _ _ _ _ Hcall)
    as (_ & _ & Hnode & -> & Hagain).
  assert (TransientNode.node_id node = nid) as Hnid by by rewrite Hnode.
  split_and!.
  - by rewrite Hnode.
  - intros id. simpl. by rewrite merge_node_lookup, merged_row_eq, Hnid.
  - done.
  - done.
  - done.
  - simpl. apply merge_node_NoDup.
  - simpl. unfold merge_node. rewrite Hnid.
    destruct (get_node (clause_nodes session) nid).
    + rewrite length_fmap. lia.
    + by rewrite length_app.
  - rewrite (Hagain now') by done. simpl. by rewrite merge_node_again.
Qed.

(** X19.  [store_clause_sql] is an upsert on the content-derived node id.
    When it returns, the object it returns carries the columns of the
    enriched clause, with the clause's own effective date or else the
    document's; the table holds under that id a row with exactly those
    columns, whose [created_at] is that of the row stored before under the
    id, or the clock reading if there was none; every other id reads as
    before and no other table changes; ids that were pairwise different stay
    so; the table grows by one row if the id was new and not at all
    otherwise; and storing the same clause again, at any later time, returns
    the same object and changes nothing. *)
Theorem store_clause_sql_upsert
    (sha256 : string → string) (now now' : Z) (enriched : EnrichedClause.t)
    (doc_id family_id : string) (doc_effective_ts : option Z)
    (session session1 : Session) (node : TransientNode.t) :
  store_clause_sql sha256 now enriched doc_id family_id doc_effective_ts session
  = Some (node, session1) →
  let chunk := EnrichedClause.chunk enriched in
  let nid := compute_node_id sha256 doc_id (ClauseChunk.page chunk)
               (ClauseChunk.span_start chunk) (ClauseChunk.span_end chunk)
               (EnrichedClause.canonical_section_id enriched) in
  node
  = TransientNode.mk nid doc_id family_id
      (EnrichedClause.canonical_section_id enriched)
      (EnrichedClause.referenced_section_id enriched)
      (EnrichedClause.change_action enriched)
      (EnrichedClause.modifies_section_id enriched)
      (match EnrichedClause.effective_ts enriched with
       | Some t => Some t
       | None => doc_effective_ts
       end)
      (ClauseChunk.text chunk)
  ∧ (∀ id, get_node (clause_nodes session1) id
           = if bool_decide (id = nid)
             then Some (row_of (from_option ClauseNode.created_at now
                                  (get_node (clause_nodes session) nid))
                               node)
             else get_node (clause_nodes session) id)
  ∧ families session1 = families session
  ∧ documents session1 = documents session
  ∧ family_section_current session1 = family_section_current session
  ∧ (NoDup (ClauseNode.node_id <$> clause_nodes session) →
     NoDup (ClauseNode.node_id <$> clause_nodes session1))
  ∧ length (clause_nodes session1)
    = (length (clause_nodes session)
       + match get_node (clause_nodes session) nid with
         | Some _ => 0
         | None => 1
         end)%nat
  ∧ store_clause_sql sha256 now' enriched doc_id family_id doc_effective_ts
                     session1
    = Some (node, session1).
Proof. apply store_clause_sql_facts. Qed.

Lemma store_clause_sql_upsert_witness :
  let enriched :=
    EnrichedClause.mk
      (ClauseChunk.mk "cap 2,000,000" "5.3 Liability" 4 10 90 "5.3" None None "A")
      "5.3" None (Some "REPLACE") None None in
  let stored :=
    store_clause_sql tagged_digest 7 enriched "d2" "F" (Some 20240601)
                     Examples.liability in
  ∃ node session1,
    stored = Some (node, session1)
    ∧ TransientNode.node_id node = "sha256:d2|4|10|90|5.3"
    ∧ TransientNode.effective_ts node = Some 20240601
    ∧ get_node (clause_nodes session1) "sha256:d2|4|10|90|5.3"
      = Some (row_of 7 node)
    ∧ length (clause_nodes session1) = 3%nat
    ∧ store_clause_sql tagged_digest 8 enriched "d2" "F" (Some 20240601) session1
      = stored.
Proof.
  intros enriched stored.
  destruct stored as [[node session1]|] eqn:Hstored; [|by vm_compute in Hstored].
  exists node, session1.
  destruct (store_clause_sql_upsert tagged_digest 7 8 enriched "d2" "F"
              (Some 20240601) Examples.liability session1 node Hstored)
    as (Hcols & Hlook & _ & _ & _ & _ & Hlen & Hagain).
  split_and!; [done| | | |exact Hlen|exact Hagain].
  - exact (f_equal TransientNode.node_id Hcols).
  - exact (f_equal TransientNode.effective_ts Hcols).
  - exact (Hlook "sha256:d2|4|10|90|5.3").
Defined.

(** ** The key behind a node id *)

Lemma bar_split (x x' r r' : string) :
  no_bar x = true → no_bar x' = true →
  (x ++ "|" ++ r)%string = (x' ++ "|" ++ r')%string →
  x = x' ∧ r = r'.
Proof.
  revert x'. induction x as [|c x IH]; intros [|c' x'] Hx Hx' Heq.
  - change (String "|" r = String "|" r') in Heq. by injection Heq as ->.
  - change (String "|" r = String c' (x' ++ "|" ++ r')%string) in Heq.
    injection Heq as <- _. by vm_compute in Hx'.
  - change (String c (x ++ "|" ++ r)%string = String "|" r') in Heq.
    injection Heq as -> _. by vm_compute in Hx.
  - rewrite !string_app_cons in Heq. injection Heq as -> Heq.
    simpl in Hx, Hx'. apply andb_true_iff in Hx as [_ Hx], Hx' as [_ Hx'].
    destruct (IH x' Hx Hx' Heq) as [-> ->]. done.
Qed.

Lemma no_bar_uint (d : Decimal.uint) :
  no_bar (DecimalString.NilEmpty.string_of_uint d) = true.
Proof. induction d; simpl; done. Qed.

Lemma no_bar_str_of_int (n : Z) : no_bar (str_of_int n) = true.
Proof.
  unfold str_of_int, DecimalString.NilZero.string_of_int,
    DecimalString.NilZero.string_of_uint.
  destruct (Z.to_int n) as [d|d]; destruct d; try done;
    simpl; apply no_bar_uint.
Qed.

Lemma str_of_int_inj (n m : Z) : str_of_int n = str_of_int m → n = m.
Proof.
  unfold str_of_int. intros Heq. apply DecimalZ.to_int_inj.
  assert (∀ z, DecimalString.NilZero.int_of_string
                 (DecimalString.NilZero.string_of_int (Z.to_int z))
               = Some (Z.to_int z)) as Hparse.
  { intros z. apply DecimalString.NilZero.isi; destruct z; simpl; try done;
      intros [= H]; by apply DecimalPos.Unsigned.to_uint_nonnil in H. }
  pose proof (Hparse n) as Hn. rewrite Heq, Hparse in Hn. by injection Hn.
Qed.

(** X20.  The string that [compute_node_id] hashes determines the five
    provenance fields, provided the document id holds no ["|"] (it is a
    hexadecimal digest): two clauses get the same key only if they agree on
    document, page, both span ends and section id.  Without the proviso two
    different clauses can share a key. *)
Theorem node_key_injective
    (doc_id doc_id' : string) (page page' span_start span_start' : Z)
    (span_end span_end' : Z) (section section' : string) :
  no_bar doc_id = true → no_bar doc_id' = true →
  (node_key doc_id page span_start span_end section
   = node_key doc_id' page' span_start' span_end' section'
   ↔ doc_id = doc_id' ∧ page = page' ∧ span_start = span_start'
     ∧ span_end = span_end' ∧ section = section')
  ∧ node_key "a|1" 2 3 4 "s" = node_key "a" 1 2 3 "4|s".
Proof.
  intros Hd Hd'. split; [|reflexivity]. split.
  - unfold node_key. intros Heq.
    apply bar_split in Heq as [-> Heq]; [|done..].
    apply bar_split in Heq as [->%str_of_int_inj Heq];
      [|apply no_bar_str_of_int..].
    apply bar_split in Heq as [->%str_of_int_inj Heq];
      [|apply no_bar_str_of_int..].
    apply bar_split in Heq as [->%str_of_int_inj Heq];
      [|apply no_bar_str_of_int..].
    by subst.
  - by intros (-> & -> & -> & -> & ->).
Qed.

Lemma node_key_injective_witness :
  node_key "d1" 4 10 90 "5.3" = node_key "d1" 4 11 90 "5.3"
  ↔ "d1" = "d1" ∧ 4 = 4 ∧ 10 = 11 ∧ 90 = 90 ∧ "5.3" = "5.3".
Proof.
  exact (proj1 (node_key_injective "d1" "d1" 4 4 10 11 90 90 "5.3" "5.3"
                  eq_refl eq_refl)).
Defined.

(** ** Storing the clauses of a document *)

Lemma store_loop_spec sha256 clock doc_id family_id dets :
  ∀ clauses call acc session nodes session1,
    store_loop sha256 clock call clauses doc_id family_id dets acc session
    = Some (nodes, session1) →
    let new := (λ e, new_clause_node sha256 e doc_id family_id dets) <$> clauses in
    nodes = (acc ++ new)%list
    ∧ families session1 = families session
    ∧ documents session1 = documents session
    ∧ family_section_current session1 = family_section_current session
    ∧ (NoDup (ClauseNode.node_id <$> clause_nodes session) →
       NoDup (ClauseNode.node_id <$> clause_nodes session1))
    ∧ (∀ id, id ∉ TransientNode.node_id <$> new →
             get_node (clause_nodes session1) id
             = get_node (clause_nodes session) id)
    ∧ (∀ i n, new !! i = Some n →
              TransientNode.node_id n ∉ TransientNode.node_id <$> drop (S i) new →
              ∃ c, get_node (clause_nodes session1) (TransientNode.node_id n)
                   = Some (row_of c n)
                   ∧ ∀ old, get_node (clause_nodes session)
                                     (TransientNode.node_id n) = Some old →
                            c = ClauseNode.created_at old).
Proof.
  induction clauses as [|e rest IH]; intros call acc session nodes session1 Hloop.
  { simpl in Hloop. injection Hloop as <- <-. simpl. rewrite app_nil_r.
    by split_and!. }
  cbn [store_loop] in Hloop.
  destruct (store_clause_sql sha256 (clock call) e doc_id family_id dets session)
    as [[node session']|] eqn:Hstep; [|done].
  destruct (store_clause_sql_Some _ _ _ _ _ _ _ _ _ Hstep)
    as (_ & _ & Hnode & Hs' & _).
  destruct (store_clause_sql_facts sha256 (clock call) 0 e doc_id family_id dets
              session session' node Hstep)
    as (_ & Hlook & Hfams & Hdocs & Hcur & Hnd & _ & _).
  assert (compute_node_id sha256 doc_id
            (ClauseChunk.page (EnrichedClause.chunk e))
            (ClauseChunk.span_start (EnrichedClause.chunk e))
            (ClauseChunk.span_end (EnrichedClause.chunk e))
            (EnrichedClause.canonical_section_id e)
          = TransientNode.node_id node) as Hnid by by rewrite Hnode.
  rewrite Hnid in Hlook.
  destruct (IH (S call) (acc ++ [node])%list session' nodes session1 Hloop)
    as (-> & Hfams' & Hdocs' & Hcur' & Hnd' & Hframe & Hlast).
  intros new. subst new. rewrite fmap_cons, <-Hnode.
  set (new := (λ e, new_clause_node sha256 e doc_id family_id dets) <$> rest) in *.
  split_and!.
  - by rewrite <-app_assoc.
  - congruence.
  - congruence.
  - congruence.
  - auto.
  - intros id Hid. rewrite fmap_cons, not_elem_of_cons in Hid.
    destruct Hid as [Hne Hid].
    rewrite Hframe, Hlook by done. by rewrite bool_decide_eq_false_2.
  - intros [|i] n Hi Hlater.
    + injection Hi as <-. cbn [drop] in Hlater.
      rewrite Hframe, Hlook by done. rewrite bool_decide_eq_true_2 by done.
      eexists. split; [done|]. by intros old ->.
    + destruct (Hlast i n Hi Hlater) as (c & Hrow & Hold).
      exists c. split; [done|]. intros old Hget.
      specialize (Hlook (TransientNode.node_id n)).
      destruct (decide (TransientNode.node_id n = TransientNode.node_id node))
        as [Hsame|Hdiff].
      * rewrite bool_decide_eq_true_2 in Hlook by done.
        rewrite <-Hsame, Hget in Hlook. exact (Hold _ Hlook).
      * rewrite bool_decide_eq_false_2 in Hlook by done.
        apply Hold. by rewrite Hlook.
Qed.

(** X21.  When [store_all_clauses_sql] returns, it returns one object per
    clause, in order, each with the columns of its clause; only the node
    table has changed; node ids that were pairwise different stay so; ids of
    no returned object read as before; and for every id of a returned object
    the table holds a row with the columns of the last object of the list
    that has the id, with the [created_at] of the row stored under the id
    before the call if there was one. *)
Theorem store_all_clauses_sql_rows
    (sha256 : string → string) (clock : nat → Z)
    (enriched_clauses : list EnrichedClause.t) (doc_id family_id : string)
    (doc_effective_ts : option Z) (session session1 : Session)
    (nodes : list TransientNode.t) :
  store_all_clauses_sql sha256 clock enriched_clauses doc_id family_id
                        doc_effective_ts session
  = Some (nodes, session1) →
  nodes = (λ e, new_clause_node sha256 e doc_id family_id doc_effective_ts)
            <$> enriched_clauses
  ∧ families session1 = families session
  ∧ documents session1 = documents session
  ∧ family_section_current session1 = family_section_current session
  ∧ (NoDup (ClauseNode.node_id <$> clause_nodes session) →
     NoDup (ClauseNode.node_id <$> clause_nodes session1))
  ∧ (∀ id, id ∉ TransientNode.node_id <$> nodes →
           get_node (clause_nodes session1) id
           = get_node (clause_nodes session) id)
  ∧ (∀ i n, nodes !! i = Some n →
            TransientNode.node_id n ∉ TransientNode.node_id <$> drop (S i) nodes →
            ∃ c, get_node (clause_nodes session1) (TransientNode.node_id n)
                 = Some (row_of c n)
                 ∧ ∀ old, get_node (clause_nodes session)
                                   (TransientNode.node_id n) = Some old →
                          c = ClauseNode.created_at old).
Proof.
  unfold store_all_clauses_sql. intros Hcall.
  destruct (store_loop_spec sha256 clock doc_id family_id doc_effective_ts
              enriched_clauses 0%nat [] session nodes session1 Hcall)
    as (Hnodes & Hrest).
  simpl in Hnodes. by rewrite <-Hnodes in Hrest.
Qed.

Lemma store_all_clauses_sql_rows_witness :
  let first :=
    EnrichedClause.mk
      (ClauseChunk.mk "cap 2,000,000" "5.3 Liability" 4 10 90 "5.3" None None "A")
      "5.3" None (Some "REPLACE") None None in
  let second :=
    EnrichedClause.mk
      (ClauseChunk.mk "cap 3,000,000" "5.3 Liability" 4 10 90 "5.3" None None "A")
      "5.3" None (Some "REPLACE") None None in
  let stored :=
    store_all_clauses_sql tagged_digest (λ i, 7 + Z.of_nat i) [first; second]
                          "d2" "F" (Some 20240601) Examples.liability in
  ∃ nodes session1,
    stored = Some (nodes, session1)
    ∧ TransientNode.clause_text <$> nodes = ["cap 2,000,000"; "cap 3,000,000"]
    ∧ (ClauseNode.clause_text <$> clause_nodes session1)
      = ["cap 500,000"; "cap 1,000,000"; "cap 3,000,000"].
Proof.
  intros first second stored.
  destruct stored as [[nodes session1]|] eqn:Hstored; [|by vm_compute in Hstored].
  exists nodes, session1.
  destruct (store_all_clauses_sql_rows tagged_digest (λ i, 7 + Z.of_nat i)
              [first; second] "d2" "F" (Some 20240601) Examples.liability
              session1 nodes Hstored) as (Hnodes & _).
  split_and!; [done|by rewrite Hnodes|].
  by injection Hstored as _ <-.
Defined.

(** X22.  A clause that [store_clause_sql] stored is visible to the read
    side: for a non-empty family id, section resolution returns the
    clause's section id unchanged, and [query_history] for that section
    answers without error with a timeline that holds the entry of the
    stored row: the clause's action and text, its effective date or else
    the document's, and the version and type of its document. *)
Theorem stored_clause_is_visible
    (sha256 : string → string) (now : Z) (enriched : EnrichedClause.t)
    (doc_id family_id : string) (doc_effective_ts : option Z)
    (session session1 : Session) (node : TransientNode.t)
    (party_a party_b : option string) :
  store_clause_sql sha256 now enriched doc_id family_id doc_effective_ts session
  = Some (node, session1) →
  family_id ≠ "" →
  let sec := EnrichedClause.canonical_section_id enriched in
  let h := query_history sha256 session1 sec (Some family_id) party_a party_b in
  _resolve_section_id session1 family_id sec = sec
  ∧ hr_error h = None
  ∧ ∃ doc timeline total,
      get_document session doc_id = Some doc
      ∧ hr_data h = Some (timeline, total)
      ∧ mkHistory (ContractDocument.doc_version_timeline doc)
                  (ContractDocument.doc_type doc)
                  (EnrichedClause.change_action enriched)
                  (match EnrichedClause.effective_ts enriched with
                   | Some t => Some t
                   | None => doc_effective_ts
                   end)
                  (ClauseChunk.text (EnrichedClause.chunk enriched))
        ∈ timeline.
Proof.
  intros Hcall Hfid sec h.
  destruct (store_clause_sql_Some _ _ _ _ _ _ _ _ _ Hcall)
    as ([doc Hdoc] & [fam Hfam] & _).
  destruct (store_clause_sql_facts sha256 now 0 enriched doc_id family_id
              doc_effective_ts session session1 node Hcall)
    as (Hcols & Hlook & Hfams & Hdocs & _).
  set (nid := compute_node_id sha256 doc_id _ _ _ _) in *.
  specialize (Hlook nid). rewrite bool_decide_eq_true_2 in Hlook by done.
  set (row := row_of _ node) in *.
  apply get_node_Some in Hlook as [Hin _].
  assert (for_key family_id sec row) as Hkey.
  { unfold row. rewrite Hcols. by split. }
  assert (row ∈ filter (for_key family_id sec) (clause_nodes session1)) as Hnode.
  { by apply list_elem_of_filter. }
  assert (_resolve_section_id session1 family_id sec = sec) as Hres.
  { apply resolve_section_id_exact. unfold section_nodes.
    intros Hnil%order_by_nil_iff. rewrite Hnil in Hnode.
    by apply elem_of_nil in Hnode. }
  assert (get_family session1 family_id = Some fam) as Hfam1.
  { unfold get_family in *. by rewrite Hfams. }
  pose proof (get_family_Some _ _ _ Hfam) as [_ Hfamid].
  subst h. unfold query_history, _resolve_family. simpl.
  rewrite bool_decide_eq_false_2 by done. simpl.
  rewrite Hfam1, Hfamid, Hres. unfold history_nodes.
  assert (row ∈ order_by node_ts_leb
                  (filter (for_key family_id sec) (clause_nodes session1)))
    as Hord by by apply order_by_elem_of.
  destruct (order_by node_ts_leb _) as [|m ms] eqn:Hnodes.
  { by apply elem_of_nil in Hord. }
  cbn [hr_error hr_data]. split_and!; [done..|].
  exists doc. eexists _, _. split_and!; [done..|].
  apply list_elem_of_fmap. exists row. split; [|done].
  unfold history_entry.
  assert (get_document session1 (ClauseNode.doc_id row) = Some doc) as ->.
  { assert (ClauseNode.doc_id row = doc_id) as ->
      by (unfold row; by rewrite Hcols).
    unfold get_document in *. by rewrite Hdocs. }
  unfold row. by rewrite Hcols.
Qed.

Lemma stored_clause_is_visible_witness :
  let enriched :=
    EnrichedClause.mk
      (ClauseChunk.mk "cap 2,000,000" "5.3 Liability" 4 10 90 "5.3" None None "A")
      "5.3" None (Some "REPLACE") None None in
  let stored :=
    store_clause_sql tagged_digest 7 enriched "d2" "F" (Some 20240601)
                     Examples.liability in
  let session1 := default Examples.liability (snd <$> stored) in
  is_Some stored
  ∧ hr_error (query_history tagged_digest session1 "5.3" (Some "F") None None)
    = None.
Proof.
  intros enriched stored session1.
  destruct stored as [[node s1]|] eqn:Hstored; [|by vm_compute in Hstored].
  split; [by eexists|].
  exact (proj1 (proj2 (stored_clause_is_visible tagged_digest 7 enriched "d2" "F"
                         (Some 20240601) Examples.liability s1 node None None
                         Hstored ltac:(done)))).
Defined.
